(** * MatchZoo [DataPack]: a shallow embedding of
      [matchzoo/data_pack/data_pack.py] and the properties of its
      indexing, joining and optional-inplace operations.

    The Python module stores three pandas data frames behind one object
    and mutates them through references.  The embedding keeps that shape:

    - a pandas [DataFrame] is an index name, a list of column names and a
      list of rows, each row an index label with one cell per column;
    - the pandas operations the module calls ([loc], [reset_index],
      [join], [drop], [sample], ...) are functions on such frames that
      return either a result or the Python exception the call raises;
    - data frames and data packs owned by the interpreter live in a store
      addressed by references, next to a small file system and the state
      of numpy's random generator; methods are computations in a state and
      exception monad over that store. *)

From stdpp Require Import base option list gmap strings.
From Stdlib Require Import ZArith Lia.

Local Open Scope string_scope.
Local Open Scope Z_scope.
Local Open Scope list_scope.

(** ** Python values, exceptions, results *)

(** A cell of a data frame, also used for index labels. *)
Inductive Value :=
| VInt (z : Z)
| VStr (s : string)
| VNaN.

#[global] Instance Value_eq_dec : EqDecision Value.
Proof. solve_decision. Defined.

(** A Python [str] is a sequence of code points; [VStr] holds its UTF-8
    encoding, one byte per character of the string.  A byte [10xxxxxx]
    continues the code point begun before it. *)
Definition continuation (a : Ascii.ascii) : bool :=
  match a with
  | Ascii.Ascii _ _ _ _ _ _ b6 b7 => b7 && negb b6
  end.

(** The continuation bytes a text starts with, and the code points after
    them: each a lead byte with the continuation bytes that follow it. *)
Fixpoint code_points_from (s : string) : string * list string :=
  match s with
  | EmptyString => (EmptyString, [])
  | String a s' =>
      let '(tail, points) := code_points_from s' in
      if continuation a then (String a tail, points)
      else (EmptyString, String a tail :: points)
  end.

(** The code points of a text, in order: what iterating over a [str]
    yields and what [len] counts.  The encoding of a [str] starts with no
    continuation byte; were there any, they are kept as a first item, so
    that no byte is lost. *)
Definition code_points (s : string) : list string :=
  let '(stray, points) := code_points_from s in
  if decide (stray = EmptyString) then points else stray :: points.

(** The exceptions the module and the library calls it makes can raise. *)
Inductive exn :=
| KeyError
| ValueError
| TypeError
| FileExistsError
| FileNotFoundError
| NotADirectoryError
| IsADirectoryError
| UnpicklingError
| EOFError
| AttributeError.

#[global] Instance exn_eq_dec : EqDecision exn.
Proof. solve_decision. Defined.

(** The outcome of a call: a value, or a raised exception. *)
Inductive Res (A : Type) :=
| Ok (a : A)
| Raise (e : exn).
Arguments Ok {A} a.
Arguments Raise {A} e.

#[global] Instance Res_ret : MRet Res := @Ok.
#[global] Instance Res_bind : MBind Res := λ A B f r,
  match r with
  | Ok a => f a
  | Raise e => Raise e
  end.
#[global] Instance Res_fmap : FMap Res := λ A B f r,
  match r with
  | Ok a => Ok (f a)
  | Raise e => Raise e
  end.

(** ** Index normalisation *)

(** What [__getitem__] accepts: an [int], a [slice] (each bound optional),
    or an array of integers. *)
Inductive Index :=
| IInt (i : Z)
| ISlice (start stop step : option Z)
| IArr (a : list Z).

(** [slice.indices(length)]: the start, stop and step of the range a slice
    denotes on a sequence of the given length.  Negative bounds count from
    the end, and all bounds are clipped to the sequence. *)
Definition slice_indices (start stop step : option Z) (length : Z)
  : Res (Z * Z * Z) :=
  let step' := default 1 step in
  if decide (step' = 0) then Raise ValueError
  else
    let lower := if decide (step' < 0) then -1 else 0 in
    let upper := if decide (step' < 0) then length - 1 else length in
    let clip (b : Z) :=
      if decide (b < 0) then Z.max (b + length) lower else Z.min b upper in
    let start' :=
      match start with
      | None => if decide (step' < 0) then upper else lower
      | Some s => clip s
      end in
    let stop' :=
      match stop with
      | None => if decide (step' < 0) then lower else upper
      | Some s => clip s
      end in
    Ok (start', stop', step').

(** [list(range(start, stop, step))] for a non-zero step. *)
Definition py_range (start stop step : Z) : list Z :=
  let n :=
    if decide (0 < step) then (stop - start + step - 1) `div` step
    else (start - stop - step - 1) `div` (- step) in
  (λ k : nat, start + Z.of_nat k * step) <$> seq 0 (Z.to_nat n).

Definition _convert_to_list_index (index : Index) (length : Z)
  : Res (list Z) :=
  match index with
  | IInt i => Ok [i]
  | ISlice start stop step =>
      '(a, b, c) ← slice_indices start stop step length;
      Ok (py_range a b c)
  | IArr a => Ok a
  end.

(** ** pandas

    A frame is its index name, its column names and its rows, a row being
    an index label and the cells under the columns.  Index labels may
    repeat, as pandas allows.  A lookup by labels ([loc], [s[labels]])
    raises [KeyError] for a label that is not in the index.  Column names
    are strings; the lemmas below concern frames whose column names are
    distinct, where [df[c]] is a series. *)

Record DataFrame := mkFrame {
  index_name : option string;
  columns : list string;
  rows : list (Value * list Value)
}.

#[global] Instance DataFrame_eq_dec : EqDecision DataFrame.
Proof. solve_decision. Defined.

Record Series := mkSeries {
  s_name : string;
  s_rows : list (Value * Value)
}.

(** What numpy's generator supplies to [sample]: from its state and a
    length, an ordering of the positions, and the state it moves to. *)
Record Generator := mkGenerator {
  permutation : N → nat → list nat;
  advance : N → N
}.

Module pd.

(** The index labels of a frame, top to bottom. *)
Definition index (df : DataFrame) : list Value := (rows df).*1.

(** [len(df)], [df.shape[0]]. *)
Definition shape0 (df : DataFrame) : Z := Z.of_nat (length (rows df)).

(** The rows carrying label [l]. *)
Definition at_label {A} (rs : list (Value * A)) (l : Value)
  : list (Value * A) :=
  filter (λ r, r.1 = l) rs.

(** Label lookup with a list of labels, shared by [DataFrame.loc] and
    [Series.__getitem__]: the rows of each requested label in the order
    requested; a label the index does not have is a [KeyError]. *)
Definition take_labels {A} (rs : list (Value * A)) (labels : list Value)
  : Res (list (Value * A)) :=
  if decide (Forall (λ l, l ∈ rs.*1) labels)
  then Ok (labels ≫= at_label rs)
  else Raise KeyError.

(** [df.loc[labels]] *)
Definition loc (df : DataFrame) (labels : list Value) : Res DataFrame :=
  rs ← take_labels (rows df) labels;
  Ok (mkFrame (index_name df) (columns df) rs).

(** The position of the first column called [c]. *)
Fixpoint column_position (cols : list string) (c : string) : option nat :=
  match cols with
  | [] => None
  | c' :: cols' =>
      if decide (c' = c) then Some 0%nat
      else S <$> column_position cols' c
  end.

Definition cell (cells : list Value) (pos : nat) : Value :=
  default VNaN (cells !! pos).

(** [df[c]] for a column name [c]. *)
Definition getitem (df : DataFrame) (c : string) : Res Series :=
  match column_position (columns df) c with
  | Some pos => Ok (mkSeries c ((λ r, (r.1, cell r.2 pos)) <$> rows df))
  | None => Raise KeyError
  end.


(** [s[labels]] on a series with an integer index: lookup by label. *)
Definition series_getitem (s : Series) (labels : list Z) : Res Series :=
  rs ← take_labels (s_rows s) (VInt <$> labels);
  Ok (mkSeries (s_name s) rs).

Definition values (s : Series) : list Value := (s_rows s).*2.

(** [s.unique()]: the distinct values in order of first appearance. *)
Fixpoint unique_from (seen : list Value) (l : list Value) : list Value :=
  match l with
  | [] => []
  | x :: l' =>
      if decide (x ∈ seen) then unique_from seen l'
      else x :: unique_from (x :: seen) l'
  end.

Definition unique (s : Series) : list Value := unique_from [] (values s).

(** [s.apply(func)]; an exception raised by [func] propagates. *)
Definition apply (s : Series) (func : Value → Res Value) : Res Series :=
  vs ← mapM func (values s);
  Ok (mkSeries (s_name s) (zip (s_rows s).*1 vs)).

(** [s.to_frame()] *)
Definition to_frame (s : Series) : DataFrame :=
  mkFrame None [s_name s] ((λ r, (r.1, [r.2])) <$> s_rows s).

(** [df.reset_index(drop=True)]: the labels become 0, 1, 2, ... *)
Definition reset_index_drop (df : DataFrame) : DataFrame :=
  mkFrame None (columns df)
    (imap (λ i r, (VInt (Z.of_nat i), r.2)) (rows df)).

(** [df.reset_index()]: the old index becomes the first column, under the
    index's name; the labels become 0, 1, 2, ... *)
Definition reset_index (df : DataFrame) : Res DataFrame :=
  let name :=
    match index_name df with
    | Some n => n
    | None => if decide ("index" ∈ columns df) then "level_0" else "index"
    end in
  if decide (name ∈ columns df) then Raise ValueError
  else Ok (mkFrame None (name :: columns df)
             (imap (λ i r, (VInt (Z.of_nat i), r.1 :: r.2)) (rows df))).

(** [left.join(right)]: a left join on the index.  Column names the two
    frames share are a [ValueError]; a left row without a partner is
    padded with NaN. *)
Definition join (left right : DataFrame) : Res DataFrame :=
  if decide (Exists (λ c, c ∈ columns right) (columns left))
  then Raise ValueError
  else Ok (mkFrame (index_name left) (columns left ++ columns right)
             (rows left ≫= λ lr,
                match at_label (rows right) lr.1 with
                | [] => [(lr.1,
                          lr.2 ++ replicate (length (columns right)) VNaN)]
                | ms => (λ rr, (lr.1, lr.2 ++ rr.2)) <$> ms
                end)).

(** [df.drop(columns=c)] *)
Definition drop (df : DataFrame) (c : string) : Res DataFrame :=
  if decide (c ∈ columns df)
  then Ok (mkFrame (index_name df) (filter (λ c', c' ≠ c) (columns df))
             ((λ r, (r.1, (filter (λ cv, cv.1 ≠ c)
                                  (zip (columns df) r.2)).*2))
                <$> rows df))
  else Raise KeyError.

(** [df[c] = s] for a series [s] over the index of [df]: the column is
    overwritten where it stands, or added as the last one. *)
Definition setitem (df : DataFrame) (c : string) (s : Series)
  : DataFrame :=
  match column_position (columns df) c with
  | Some pos =>
      mkFrame (index_name df) (columns df)
        (zip_with (λ r v, (r.1, <[pos := v]> r.2)) (rows df) (values s))
  | None =>
      mkFrame (index_name df) (columns df ++ [c])
        (zip_with (λ r v, (r.1, r.2 ++ [v])) (rows df) (values s))
  end.

(** [df.sample(frac=1)]: every row once, in the order the generator
    draws; the labels travel with their rows. *)
Definition sample (g : Generator) (state : N) (df : DataFrame)
  : DataFrame :=
  mkFrame (index_name df) (columns df)
    (omap (λ i, rows df !! i) (permutation g state (length (rows df)))).



End pd.

(** ** The interpreter's store *)

(** References to objects: data frames and data packs are mutable objects,
    reached through references and possibly shared. *)
Definition ref := nat.

(** A [DataPack] object: its three attributes, each a reference to a
    data frame. *)
Record DataPack := mkDataPack {
  _relation : ref;
  _left : ref;
  _right : ref
}.

(** A [DataPackFrameView] object: its one attribute, a reference to the
    data pack viewed. *)
Record DataPackFrameView := mkView {
  _data_pack : ref
}.

(** A callable passed to [apply_on_text]: what a call returns or raises,
    and its [__name__] attribute when it has one. *)
Record Callable := mkCallable {
  call : Value → Res Value;
  __name__ : option string
}.

(** The [rename] argument of [apply_on_text]: a string, or a pair of
    strings for the "both" mode. *)
Inductive Rename :=
| RStr (s : string)
| RPair (l r : string).

(** Paths are absolute, a list of components below the root. *)
Definition path := list string.

(** What a file holds: the three tables of a pickled data pack, or other
    bytes.  The pickle keeps the content of the tables; whether two of the
    attributes were one shared object is not recorded. *)
Inductive blob :=
| Pickled (relation left right : DataFrame)
| Bytes (b : string).

Inductive node :=
| Dir
| File (content : blob).

Record World := mkWorld {
  frames : gmap ref DataFrame;
  packs : gmap ref DataPack;
  fs : gmap path node;
  rng : N
}.

(** Computations: from a store to an outcome and the store left behind.
    A raised exception keeps the effects that came before it. *)
Definition M (A : Type) : Type := World → Res A * World.

#[global] Instance M_ret : MRet M := λ A a w, (Ok a, w).
#[global] Instance M_bind : MBind M := λ A B f m w,
  match m w with
  | (Ok a, w') => f a w'
  | (Raise e, w') => (Raise e, w')
  end.

Definition lift {A} (r : Res A) : M A := λ w, (r, w).
Definition raise {A} (e : exn) : M A := λ w, (Raise e, w).

(** An attribute read through a reference the store does not hold has no
    counterpart in Python; it is reported as an [AttributeError]. *)
Definition get_frame (r : ref) : M DataFrame := λ w,
  match frames w !! r with
  | Some df => (Ok df, w)
  | None => (Raise AttributeError, w)
  end.

Definition get_pack (r : ref) : M DataPack := λ w,
  match packs w !! r with
  | Some d => (Ok d, w)
  | None => (Raise AttributeError, w)
  end.

(** A new data frame object. *)
Definition new_frame (df : DataFrame) : M ref := λ w,
  let r := fresh (dom (frames w)) in
  (Ok r, mkWorld (<[r := df]> (frames w)) (packs w) (fs w) (rng w)).

(** The object behind [r] changes in place. *)
Definition set_frame (r : ref) (df : DataFrame) : M unit := λ w,
  (Ok (), mkWorld (<[r := df]> (frames w)) (packs w) (fs w) (rng w)).

(** A new data pack object. *)
Definition new_pack (d : DataPack) : M ref := λ w,
  let r := fresh (dom (packs w)) in
  (Ok r, mkWorld (frames w) (<[r := d]> (packs w)) (fs w) (rng w)).

(** Attribute assignment on the data pack behind [r]. *)
Definition set_pack (r : ref) (d : DataPack) : M unit := λ w,
  (Ok (), mkWorld (frames w) (<[r := d]> (packs w)) (fs w) (rng w)).

(** The generator's state, which the draw advances. *)
Definition draw (g : Generator) : M N := λ w,
  (Ok (rng w), mkWorld (frames w) (packs w) (fs w) (advance g (rng w))).

(** *** Files

    The file system maps the paths that exist to what is there; the root
    is always a directory.  Links and permissions are left out. *)

Definition node_at (w : World) (p : path) : option node :=
  match p with
  | [] => Some Dir
  | _ => fs w !! p
  end.

Definition parent (p : path) : path := removelast p.

(** [Path.exists()] *)
Definition path_exists (p : path) : M bool := λ w,
  (Ok (bool_decide (is_Some (node_at w p))), w).

Definition write_node (p : path) (n : node) : M unit := λ w,
  (Ok (), mkWorld (frames w) (packs w) (<[p := n]> (fs w)) (rng w)).

(** Where the walk from the root down to a path that is not there
    stops: at a regular file that stands on the way ([ENOTDIR]), or at a
    name that is missing ([ENOENT]).  [here] is the path walked so far,
    [rest] the names still to follow. *)
Fixpoint walk_error (w : World) (here rest : path) : exn :=
  match rest with
  | [] => FileNotFoundError
  | name :: rest' =>
      match node_at w here with
      | Some Dir => walk_error w (here ++ [name]) rest'
      | Some (File _) => NotADirectoryError
      | None => FileNotFoundError
      end
  end.

(** What reaching into directory [p] raises when [p] is not one: a
    regular file at [p] or on the way to it is a [NotADirectoryError], a
    missing name a [FileNotFoundError]. *)
Definition enter (p : path) : M unit := λ w,
  match node_at w p with
  | Some Dir => (Ok (), w)
  | Some (File _) => (Raise NotADirectoryError, w)
  | None => (Raise (walk_error w [] p), w)
  end.

(** [Path.mkdir()], parents not created. *)
Definition mkdir (p : path) : M unit :=
  enter (parent p);;
  ex ← path_exists p;
  if (ex : bool) then raise FileExistsError else write_node p Dir.

(** [open(p, mode='wb')]: the file is created, or emptied. *)
Definition open_wb (p : path) : M path := λ w,
  match enter (parent p) w with
  | (Raise e, w') => (Raise e, w')
  | (Ok _, _) =>
      match node_at w p with
      | Some Dir => (Raise IsADirectoryError, w)
      | _ => (Ok p, snd (write_node p (File (Bytes "")) w))
      end
  end.

(** [open(p, 'rb')] and reading what is there. *)
Definition open_rb (p : path) : M blob := λ w,
  match enter (parent p) w with
  | (Raise e, w') => (Raise e, w')
  | (Ok _, _) =>
      match node_at w p with
      | Some Dir => (Raise IsADirectoryError, w)
      | Some (File b) => (Ok b, w)
      | None => (Raise FileNotFoundError, w)
      end
  end.

(** [dill.dump(obj, file)] for a data pack: the content of its three
    tables goes to the file. *)
Definition dill_dump (obj : ref) (file : path) : M unit :=
  d ← get_pack obj;
  relation ← get_frame (_relation d);
  left ← get_frame (_left d);
  right ← get_frame (_right d);
  write_node file (File (Pickled relation left right)).

(** [dill.load] on what was read.  A pickled data pack gives a new data
    pack object over new data frame objects.  An empty file is an
    [EOFError].  Other bytes stand for content that is no pickle at all,
    an [UnpicklingError]; a file that pickles some other object, which
    [dill.load] would return as it is, is not among the files modelled. *)
Definition dill_load (b : blob) : M ref :=
  match b with
  | Pickled relation_df left_df right_df =>
      relation ← new_frame relation_df;
      left ← new_frame left_df;
      right ← new_frame right_df;
      new_pack (mkDataPack relation left right)
  | Bytes EmptyString => raise EOFError
  | Bytes _ => raise UnpicklingError
  end.

(** ** [class DataPack] *)

Definition DATA_FILENAME : string := "data.dill".

(** Python's [len] on a cell, as [append_text_length] passes it: the
    number of code points of a text. *)
Definition len : Callable :=
  mkCallable (λ v, match v with
                   | VStr s => Ok (VInt (Z.of_nat (length (code_points s))))
                   | _ => Raise TypeError
                   end)
             (Some "len").

(** Truthiness of a string: [s or d]. *)
Definition str_or (s d : string) : string :=
  if decide (s = "") then d else s.

Module DataPack.

(** The constructor keeps the three frames it is given: the new data pack
    refers to the caller's objects. *)
Definition __init__ (relation left right : ref) : M ref :=
  new_pack (mkDataPack relation left right).

Definition has_label (self : ref) : M bool :=
  d ← get_pack self;
  relation ← get_frame (_relation d);
  mret (bool_decide ("label" ∈ columns relation)).

Definition __len__ (self : ref) : M Z :=
  d ← get_pack self;
  relation ← get_frame (_relation d);
  mret (pd.shape0 relation).

Definition frame (self : ref) : M DataPackFrameView :=
  mret (mkView self).

Definition __getitem__ (self : ref) (index : Index) : M ref :=
  n ← __len__ self;
  index ← lift (_convert_to_list_index index n);
  d ← get_pack self;
  self_relation ← get_frame (_relation d);
  relation ← lift (pd.reset_index_drop
                     <$> pd.loc self_relation (VInt <$> index));
  self_left ← get_frame (_left d);
  left ← lift (ids ← pd.getitem relation "id_left";
               pd.loc self_left (pd.unique ids));
  self_right ← get_frame (_right d);
  right ← lift (ids ← pd.getitem relation "id_right";
                pd.loc self_right (pd.unique ids));
  left_copy ← new_frame left;
  right_copy ← new_frame right;
  relation_copy ← new_frame relation;
  new_pack (mkDataPack relation_copy left_copy right_copy).

Definition relation (self : ref) : M ref :=
  d ← get_pack self; mret (_relation d).

Definition left (self : ref) : M ref :=
  d ← get_pack self; mret (_left d).

Definition right (self : ref) : M ref :=
  d ← get_pack self; mret (_right d).

Definition copy (self : ref) : M ref :=
  d ← get_pack self;
  left ← get_frame (_left d);
  left_copy ← new_frame left;
  right ← get_frame (_right d);
  right_copy ← new_frame right;
  relation ← get_frame (_relation d);
  relation_copy ← new_frame relation;
  new_pack (mkDataPack relation_copy left_copy right_copy).

Definition save (self : ref) (dirpath : path) : M unit :=
  let data_file_path := dirpath ++ [DATA_FILENAME] in
  file_there ← path_exists data_file_path;
  (if (file_there : bool) then raise FileExistsError
   else
     dir_there ← path_exists dirpath;
     if negb dir_there then mkdir dirpath else mret ());;
  file ← open_wb data_file_path;
  dill_dump self file.

(** The decorator: [func] runs on the receiver, or on a copy of it that
    is then returned. *)
Definition _optional_inplace (func : ref → M unit)
    (self : ref) (inplace : bool) : M (option ref) :=
  target ← (if inplace then mret self else copy self);
  func target;;
  mret (if negb inplace then Some target else None).

Definition _apply_on_text_right (self : ref) (func : Callable)
    (rename : option string) (verbose : Z) : M unit :=
  let name := match rename with
              | Some s => str_or s "text_right"
              | None => "text_right"
              end in
  (if decide (verbose ≠ 0)
   then match __name__ func with
        | Some _ => mret ()
        | None => raise AttributeError
        end
   else mret ());;
  d ← get_pack self;
  right ← get_frame (_right d);
  s ← lift (text ← pd.getitem right "text_right"; pd.apply text (call func));
  set_frame (_right d) (pd.setitem right name s).

Definition _apply_on_text_left (self : ref) (func : Callable)
    (rename : option string) (verbose : Z) : M unit :=
  let name := match rename with
              | Some s => str_or s "text_left"
              | None => "text_left"
              end in
  (if decide (verbose ≠ 0)
   then match __name__ func with
        | Some _ => mret ()
        | None => raise AttributeError
        end
   else mret ());;
  d ← get_pack self;
  left ← get_frame (_left d);
  s ← lift (text ← pd.getitem left "text_left"; pd.apply text (call func));
  set_frame (_left d) (pd.setitem left name s).

(** [left_name, right_name = rename or ('text_left', 'text_right')]: a
    pair is taken apart; a string is taken apart too, into its code
    points, when it has two of them; the empty string is false, and the
    default pair stands in for it. *)
Definition unpack_names (rename : option Rename)
  : Res (string * string) :=
  match rename with
  | None => Ok ("text_left", "text_right")
  | Some (RPair l r) => Ok (l, r)
  | Some (RStr s) =>
      match code_points s with
      | [] => Ok ("text_left", "text_right")
      | [a; b] => Ok (a, b)
      | _ => Raise ValueError
      end
  end.

Definition _apply_on_text_both (self : ref) (func : Callable)
    (rename : option Rename) (verbose : Z) : M unit :=
  '(left_name, right_name) ← lift (unpack_names rename);
  _apply_on_text_left self func (Some left_name) verbose;;
  _apply_on_text_right self func (Some right_name) verbose.

(** The name a single side gets.  A pair given for one side cannot be
    joined to the progress message; column names here are strings, so the
    pair is refused in the silent case as well. *)
Definition one_name (rename : option Rename) : Res (option string) :=
  match rename with
  | None => Ok None
  | Some (RStr s) => Ok (Some s)
  | Some (RPair _ _) => Raise TypeError
  end.

(** The method bodies as written, before [@_optional_inplace]. *)
Module wrapped.

Definition shuffle (g : Generator) (self : ref) : M unit :=
  d ← get_pack self;
  relation ← get_frame (_relation d);
  state ← draw g;
  sampled ← new_frame (pd.sample g state relation);
  set_pack self (mkDataPack sampled (_left d) (_right d));;
  d ← get_pack self;
  relation ← get_frame (_relation d);
  set_frame (_relation d) (pd.reset_index_drop relation).

Definition drop_label (self : ref) : M unit :=
  d ← get_pack self;
  relation ← get_frame (_relation d);
  dropped ← lift (pd.drop relation "label");
  dropped ← new_frame dropped;
  set_pack self (mkDataPack dropped (_left d) (_right d)).

Definition apply_on_text (func : Callable) (mode : string)
    (rename : option Rename) (verbose : Z) (self : ref) : M unit :=
  if decide (mode = "both")
  then _apply_on_text_both self func rename verbose
  else if decide (mode = "left")
  then name ← lift (one_name rename);
       _apply_on_text_left self func name verbose
  else if decide (mode = "right")
  then name ← lift (one_name rename);
       _apply_on_text_right self func name verbose
  else raise ValueError.

End wrapped.

Definition shuffle (g : Generator) : ref → bool → M (option ref) :=
  _optional_inplace (wrapped.shuffle g).

Definition drop_label : ref → bool → M (option ref) :=
  _optional_inplace wrapped.drop_label.

Definition apply_on_text (self : ref) (func : Callable) (mode : string)
    (rename : option Rename) (verbose : Z) (inplace : bool)
  : M (option ref) :=
  _optional_inplace (wrapped.apply_on_text func mode rename verbose)
    self inplace.

Definition append_text_length : ref → bool → M (option ref) :=
  _optional_inplace (λ self,
    apply_on_text self len "both"
      (Some (RPair "length_left" "length_right")) 1 true;;
    mret ()).

End DataPack.

(** ** [class DataPackFrameView] *)

Module DataPackFrameView.

(** The loop of the slicer: every column of the relation but the two
    identifiers is looked up at [index], renumbered, and joined on. *)
Fixpoint join_labels (relation : DataFrame) (index : list Z)
    (joined_table : DataFrame) (cols : list string) : Res DataFrame :=
  match cols with
  | [] => Ok joined_table
  | column :: cols' =>
      if decide (column ∉ ["id_left"; "id_right"])
      then
        labels ← (s ← pd.getitem relation column;
                  pd.series_getitem s index);
        let labels := pd.reset_index_drop (pd.to_frame labels) in
        joined_table ← pd.join joined_table labels;
        join_labels relation index joined_table cols'
      else join_labels relation index joined_table cols'
  end.

Definition __getitem__ (self : DataPackFrameView) (index : Index)
  : M DataFrame :=
  let dp := _data_pack self in
  n ← DataPack.__len__ dp;
  index ← lift (_convert_to_list_index index n);
  dp_left ← DataPack.left dp ≫= get_frame;
  dp_relation ← DataPack.relation dp ≫= get_frame;
  left_df ← lift (ids ← pd.getitem dp_relation "id_left";
                  ids ← pd.series_getitem ids index;
                  pd.loc dp_left (pd.values ids) ≫= pd.reset_index);
  dp_right ← DataPack.right dp ≫= get_frame;
  right_df ← lift (ids ← pd.getitem dp_relation "id_right";
                   ids ← pd.series_getitem ids index;
                   pd.loc dp_right (pd.values ids) ≫= pd.reset_index);
  joined_table ← lift (pd.join left_df right_df);
  lift (join_labels dp_relation index joined_table (columns dp_relation)).

Definition __call__ (self : DataPackFrameView) : M DataFrame :=
  __getitem__ self (ISlice None None None).

End DataPackFrameView.



(** [load_data_pack] *)
Definition load_data_pack (dirpath : path) : M ref :=
  let data_file_path := dirpath ++ [DATA_FILENAME] in
  open_rb data_file_path ≫= dill_load.

(** ** The data model of the specification *)

#[global] Instance Value_inhabited : Inhabited Value := populate VNaN.

(** Rows numbered 0, 1, 2, ...: what [reset_index] leaves as the index. *)
Definition numbered {A} (xs : list A) : list (Value * A) :=
  imap (λ k x, (VInt (Z.of_nat k), x)) xs.

(** The labels 0 .. n-1. *)
Definition range_labels (n : nat) : list Value :=
  (λ k : nat, VInt (Z.of_nat k)) <$> seq 0 n.

(** The index of the frame is the default one: row [k] has label [k]. *)
Definition range_index (df : DataFrame) : Prop :=
  pd.index df = range_labels (length (rows df)).

(** Every row has one cell per column, as in any pandas frame. *)
Definition rectangular (df : DataFrame) : Prop :=
  Forall (λ r, length r.2 = length (columns df)) (rows df).

(** One row per identifier. *)
Definition unique_keys (df : DataFrame) : Prop := NoDup (pd.index df).

(** The cell of row [r] of [df] under column [c]. *)
Definition field (df : DataFrame) (r : Value * list Value) (c : string)
  : Value :=
  match pd.column_position (columns df) c with
  | Some pos => pd.cell r.2 pos
  | None => VNaN
  end.

(** The values of column [c] of [df], top to bottom. *)
Definition column_values (df : DataFrame) (c : string) : list Value :=
  (λ r, field df r c) <$> rows df.

(** The data pack behind [self] in store [w]: its three tables. *)
Definition holds (w : World) (self : ref) (relation left right : DataFrame)
  : Prop :=
  ∃ d, packs w !! self = Some d
       ∧ frames w !! _relation d = Some relation
       ∧ frames w !! _left d = Some left
       ∧ frames w !! _right d = Some right.

(** The relation carries both identifier columns under the default index. *)
Definition relation_ok (relation : DataFrame) : Prop :=
  range_index relation
  ∧ "id_left" ∈ columns relation
  ∧ "id_right" ∈ columns relation.

(** Referential integrity: every identifier the relation mentions is a key
    of the table it refers to. *)
Definition referential_integrity (relation left right : DataFrame) : Prop :=
  Forall (λ v, v ∈ pd.index left) (column_values relation "id_left")
  ∧ Forall (λ v, v ∈ pd.index right) (column_values relation "id_right").

(** The positions [idx] all lie inside a table of [n] rows. *)
Definition valid_positions (n : nat) (idx : list Z) : Prop :=
  Forall (λ i, 0 ≤ i < Z.of_nat n) idx.

(** The rows of [df] at the positions [idx]. *)
Definition selected (df : DataFrame) (idx : list Z)
  : list (Value * list Value) :=
  (λ i, rows df !!! Z.to_nat i) <$> idx.

(** The slicer of the view as a function of the three tables it reads. *)
Definition slice (relation left right : DataFrame) (index : Index)
  : Res DataFrame :=
  index ← _convert_to_list_index index (pd.shape0 relation);
  left_df ← (ids ← pd.getitem relation "id_left";
             ids ← pd.series_getitem ids index;
             pd.loc left (pd.values ids) ≫= pd.reset_index);
  right_df ← (ids ← pd.getitem relation "id_right";
              ids ← pd.series_getitem ids index;
              pd.loc right (pd.values ids) ≫= pd.reset_index);
  joined_table ← pd.join left_df right_df;
  DataPackFrameView.join_labels relation index joined_table
    (columns relation).

(** [__getitem__] of the data pack as a function of the three tables it
    reads: the relation rows selected and renumbered, and the entities
    they mention. *)
Definition select_tables (relation left right : DataFrame) (index : Index)
  : Res (DataFrame * DataFrame * DataFrame) :=
  index ← _convert_to_list_index index (pd.shape0 relation);
  relation' ← pd.reset_index_drop <$> pd.loc relation (VInt <$> index);
  left' ← (ids ← pd.getitem relation' "id_left";
           pd.loc left (pd.unique ids));
  right' ← (ids ← pd.getitem relation' "id_right";
            pd.loc right (pd.unique ids));
  Ok (relation', left', right').

(** [DataPack(left=left.copy(), right=right.copy(),
    relation=relation.copy())]: three new frames and a new data pack over
    them. *)
Definition store_tables (relation left right : DataFrame) : M ref :=
  left_copy ← new_frame left;
  right_copy ← new_frame right;
  relation_copy ← new_frame relation;
  new_pack (mkDataPack relation_copy left_copy right_copy).

(** Every object of [w] is in [w'] as it was. *)
Definition untouched (w w' : World) : Prop :=
  frames w ⊆ frames w' ∧ packs w ⊆ packs w'.

(** [p] is a data pack of [w'] with the three tables given, and neither it
    nor any of its tables is an object of [w]: it shares no storage with
    what was there. *)
Definition new_pack_in (w w' : World) (p : ref)
    (relation left right : DataFrame) : Prop :=
  packs w !! p = None
  ∧ ∃ d, packs w' !! p = Some d
         ∧ frames w !! _relation d = None
         ∧ frames w !! _left d = None
         ∧ frames w !! _right d = None
         ∧ frames w' !! _relation d = Some relation
         ∧ frames w' !! _left d = Some left
         ∧ frames w' !! _right d = Some right.

(** The cells stored under identifier [id], if any. *)
Fixpoint assoc (id : Value) (rs : list (Value * list Value))
  : option (list Value) :=
  match rs with
  | [] => None
  | (k, cells) :: rs' => if decide (k = id) then Some cells else assoc id rs'
  end.

(** An entity as a joined row shows it: its identifier, then its cells. *)
Definition entity (df : DataFrame) (id : Value) : list Value :=
  id :: default [] (assoc id (rows df)).

(** The name under which the index of [df] appears once it is a column. *)
Definition index_label (df : DataFrame) : string :=
  match index_name df with
  | Some n => n
  | None => if decide ("index" ∈ columns df) then "level_0" else "index"
  end.

Definition is_identifier (c : string) : Prop := c ∈ ["id_left"; "id_right"].

#[global] Instance is_identifier_dec c : Decision (is_identifier c).
Proof. unfold is_identifier. apply _. Defined.

(** The relation's columns that are not identifiers. *)
Definition other_columns (relation : DataFrame) : list string :=
  filter (λ c, ¬ is_identifier c) (columns relation).

(** The columns of the joined table: left entity, right entity, the rest
    of the relation. *)
Definition joined_columns (relation left right : DataFrame) : list string :=
  (index_label left :: columns left)
  ++ (index_label right :: columns right)
  ++ other_columns relation.

(** The joined row for relation row [r]. *)
Definition joined_row (relation left right : DataFrame)
    (r : Value * list Value) : list Value :=
  entity left (field relation r "id_left")
  ++ entity right (field relation r "id_right")
  ++ (field relation r <$> other_columns relation).

(** The distinct values of [l], each where it first appears: the value at
    position [i] is kept when it does not occur before [i]. *)
Definition first_occurrences (l : list Value) : list Value :=
  omap id (imap (λ i x, if decide (x ∈ take i l) then None else Some x) l).

(** The relation restricted to the positions [idx] and renumbered. *)
Definition selected_relation (relation : DataFrame) (idx : list Z)
  : DataFrame :=
  mkFrame None (columns relation) (numbered (selected relation idx).*2).

(** An entity table restricted to the identifiers [ids], each taken where
    it first appears. *)
Definition restricted (table : DataFrame) (ids : list Value) : DataFrame :=
  mkFrame (index_name table) (columns table)
    (first_occurrences ids ≫= pd.at_label (rows table)).

(** The frame [df] without its columns called [c]. *)
Definition dropped (df : DataFrame) (c : string) : DataFrame :=
  mkFrame (index_name df) (filter (λ c', c' ≠ c) (columns df))
    ((λ r, (r.1, (filter (λ cv, cv.1 ≠ c) (zip (columns df) r.2)).*2))
       <$> rows df).

(** The store differs at the data pack [t] alone, and no frame that was
    there has changed. *)
Definition only_target (t : ref) (w w' : World) : Prop :=
  frames w ⊆ frames w'
  ∧ (∀ q, q ≠ t → packs w' !! q = packs w !! q).

(** The relation after [shuffle]: sampled, then renumbered. *)
Definition shuffled (g : Generator) (state : N) (relation : DataFrame)
  : DataFrame :=
  pd.reset_index_drop (pd.sample g state relation).

(** The full joined table of a data pack. *)
Definition joined_frame (relation left right : DataFrame) : DataFrame :=
  mkFrame None (joined_columns relation left right)
    (numbered (joined_row relation left right <$> rows relation)).

(** ** A small data pack

    Two queries, two documents and the relation pairing them, as in the
    class's own example; the data pack lives at reference 0 of a store
    whose file system has a directory [/saved] with a data file in it. *)

Definition toy_left : DataFrame :=
  mkFrame (Some "id_left") ["text_left"]
    [(VStr "qid1", [VStr "query 1"]); (VStr "qid2", [VStr "query 2"])].

Definition toy_right : DataFrame :=
  mkFrame (Some "id_right") ["text_right"]
    [(VStr "did1", [VStr "document 1"]);
     (VStr "did2", [VStr "document 2"])].

Definition toy_relation : DataFrame :=
  mkFrame None ["id_left"; "id_right"; "label"]
    [(VInt 0, [VStr "qid1"; VStr "did1"; VInt 1]);
     (VInt 1, [VStr "qid2"; VStr "did2"; VInt 1])].

Definition toy_world : World :=
  mkWorld
    (<[2%nat := toy_right]> (<[1%nat := toy_left]>
       (<[0%nat := toy_relation]> ∅)))
    (<[0%nat := mkDataPack 0%nat 1%nat 2%nat]> ∅)
    (<[["saved"; DATA_FILENAME] := File (Bytes "old")]>
       (<[["saved"] := Dir]> ∅))
    0%N.

(** A generator that deals the positions back to front. *)
Definition backwards : Generator :=
  mkGenerator (λ _ n, reverse (seq 0 n)) N.succ.

(** The generator draws orderings of all positions. *)
Definition draws_permutations (g : Generator) : Prop :=
  ∀ state n, permutation g state n ≡ₚ seq 0 n.

(** Every path in the file system sits in a directory. *)
Definition fs_ok (w : World) : Prop :=
  ∀ p n, fs w !! p = Some n → node_at w (parent p) = Some Dir.

(** ** Notions for the text transformations *)

(** The column a transformation writes: [rename or text]. *)
Definition target_name (rename : option string) (text : string) : string :=
  match rename with
  | Some s => str_or s text
  | None => text
  end.

(** The store [w] with the frame behind [r] replaced by [df]. *)
Definition with_frame (w : World) (r : ref) (df : DataFrame) : World :=
  mkWorld (<[r := df]> (frames w)) (packs w) (fs w) (rng w).

(** A cell that holds text, and the length of its text. *)
Definition is_text (v : Value) : Prop :=
  match v with
  | VStr _ => True
  | _ => False
  end.

#[global] Instance is_text_dec v : Decision (is_text v).
Proof. destruct v; simpl; apply _. Defined.

Definition text_length (v : Value) : Value :=
  match v with
  | VStr s => VInt (Z.of_nat (length (code_points s)))
  | _ => VNaN
  end.

(** The frame [df] once the results [vs] computed from its column [text]
    are stored under [name]. *)
Definition written (df : DataFrame) (text name : string) (vs : list Value)
  : DataFrame :=
  pd.setitem df name (mkSeries text (zip (pd.index df) vs)).

(** The call can report progress: it is silent, or the function has a
    name for the message. *)
Definition speaks (func : Callable) (verbose : Z) : Prop :=
  verbose = 0 ∨ is_Some (__name__ func).

(** The stores [w] and [w'] differ at most in the frames behind [rs]. *)
Definition differ_at (w w' : World) (rs : list ref) : Prop :=
  packs w' = packs w ∧ fs w' = fs w ∧ rng w' = rng w
  ∧ ∀ x, x ∉ rs → frames w' !! x = frames w !! x.

(** The [rename] argument has the shape the mode takes apart. *)
Definition rename_fits (mode : string) (rename : option Rename) : Prop :=
  if decide (mode = "both")
  then ∃ names, DataPack.unpack_names rename = Ok names
  else ∃ name, DataPack.one_name rename = Ok name.

(** A callable without a [__name__], as a [functools.partial] object is:
    it returns its argument. *)
Definition nameless : Callable := mkCallable (λ v, Ok v) None.

(** The modes [apply_on_text] knows. *)
Definition known_mode (mode : string) : Prop :=
  mode = "both" ∨ mode = "left" ∨ mode = "right".

(** ** Two damaged tables

    A right table whose second text is missing, and a left table that has
    lost the second query, each to stand in the small data pack. *)

Definition toy_right_nan : DataFrame :=
  mkFrame (Some "id_right") ["text_right"]
    [(VStr "did1", [VStr "document 1"]); (VStr "did2", [VNaN])].

Definition toy_left_short : DataFrame :=
  mkFrame (Some "id_left") ["text_left"]
    [(VStr "qid1", [VStr "query 1"])].

(** A left table with a text outside ASCII. *)
Definition toy_left_accent : DataFrame :=
  mkFrame (Some "id_left") ["text_left"]
    [(VStr "qid1", [VStr "café"]); (VStr "qid2", [VStr "query 2"])].

(** ** Data packs outside the default shape

    The constructor validates nothing, so a data pack can hold a relation
    that kept its labels when its first row was filtered away, or one
    whose rows were reordered together with their labels.  Referential
    integrity holds of both. *)





(** ** Lists indexed by labels *)

Lemma at_label_nil {A} (rs : list (Value * A)) l :
  l ∉ rs.*1 → pd.at_label rs l = [].
Proof.
  unfold pd.at_label. induction rs as [|r rs IH]; [done|].
  rewrite fmap_cons, not_elem_of_cons. intros [Hne Hnin].
  rewrite filter_cons_False by (simpl; congruence). auto.
Qed.

Lemma at_label_unique {A} (rs : list (Value * A)) r :
  NoDup rs.*1 → r ∈ rs → pd.at_label rs r.1 = [r].
Proof.
  unfold pd.at_label. induction rs as [|r' rs IH]; [by inversion 2|].
  rewrite fmap_cons, NoDup_cons. intros [Hnin Hnd] [->|Hin]%elem_of_cons.
  - rewrite filter_cons_True by done. f_equal. by apply at_label_nil.
  - rewrite filter_cons_False; [auto|]. simpl. intros Heq.
    apply Hnin. rewrite Heq. by apply list_elem_of_fmap_2.
Qed.

Lemma numbered_lookup {A} (xs : list A) k :
  numbered xs !! k = (λ x, (VInt (Z.of_nat k), x)) <$> xs !! k.
Proof. unfold numbered. by rewrite list_lookup_imap. Qed.

Lemma numbered_length {A} (xs : list A) : length (numbered xs) = length xs.
Proof. unfold numbered. by rewrite length_imap. Qed.

Lemma numbered_index {A} (xs : list A) :
  (numbered xs).*1 = range_labels (length xs).
Proof.
  apply list_eq. intros k. unfold range_labels.
  rewrite !list_lookup_fmap, numbered_lookup.
  destruct (xs !! k) as [x|] eqn:Hk; simpl.
  - by rewrite (lookup_seq_lt _ _ _(lookup_lt_Some _ _ _ Hk)).
  - by rewrite lookup_seq_ge by (by apply lookup_ge_None).
Qed.

Lemma numbered_snd {A} (xs : list A) : (numbered xs).*2 = xs.
Proof.
  apply list_eq. intros k. rewrite list_lookup_fmap, numbered_lookup.
  by destruct (xs !! k).
Qed.

Lemma NoDup_range_labels n : NoDup (range_labels n).
Proof.
  unfold range_labels. apply NoDup_fmap_2; [|apply NoDup_seq].
  intros a b Hab. injection Hab. lia.
Qed.

Lemma range_labels_lookup n k :
  (k < n)%nat → range_labels n !! k = Some (VInt (Z.of_nat k)).
Proof.
  intros Hk. unfold range_labels.
  by rewrite list_lookup_fmap, lookup_seq_lt.
Qed.

Lemma elem_of_range_labels n v :
  v ∈ range_labels n ↔ ∃ k : nat, v = VInt (Z.of_nat k) ∧ (k < n)%nat.
Proof.
  unfold range_labels. rewrite list_elem_of_fmap. split.
  - intros (k & -> & Hk%elem_of_seq). exists k. split; [done|lia].
  - intros (k & -> & Hk). exists k. split; [done|]. apply elem_of_seq. lia.
Qed.

(** Under the default index the label [k] finds row [k] and no other. *)
Lemma at_label_range {A} (rs : list (Value * A)) k r :
  rs.*1 = range_labels (length rs) →
  rs !! k = Some r →
  pd.at_label rs (VInt (Z.of_nat k)) = [r].
Proof.
  intros Hidx Hk.
  assert (r.1 = VInt (Z.of_nat k)) as <-.
  { assert (rs.*1 !! k = Some r.1) as Hl
      by (by rewrite list_lookup_fmap, Hk).
    rewrite Hidx, range_labels_lookup in Hl
      by (by eapply lookup_lt_Some). congruence. }
  apply at_label_unique.
  - rewrite Hidx. apply NoDup_range_labels.
  - by eapply list_elem_of_lookup_2.
Qed.

Lemma take_labels_range {A} `{Inhabited A} (rs : list (Value * A)) idx :
  rs.*1 = range_labels (length rs) →
  valid_positions (length rs) idx →
  pd.take_labels rs (VInt <$> idx)
  = Ok ((λ i, rs !!! Z.to_nat i) <$> idx).
Proof.
  intros Hidx Hval. unfold pd.take_labels.
  rewrite decide_True.
  - f_equal. induction Hval as [|i idx [Hi1 Hi2] _ IH]; [done|].
    rewrite !fmap_cons, bind_cons, IH. f_equal.
    destruct (lookup_lt_is_Some_2 rs (Z.to_nat i)) as [r Hr]; [lia|].
    rewrite (list_lookup_total_correct _ _ _ Hr).
    replace i with (Z.of_nat (Z.to_nat i)) at 1 by lia.
    by rewrite (at_label_range _ _ _ Hidx Hr).
  - rewrite Forall_fmap. eapply Forall_impl; [exact Hval|].
    intros i [Hi1 Hi2]. simpl. rewrite Hidx, elem_of_range_labels.
    exists (Z.to_nat i). split; [f_equal|]; lia.
Qed.

(** ** Running computations *)

Lemma run_bind {A B} (m : M A) (f : A → M B) w :
  (m ≫= f) w = match m w with
               | (Ok a, w') => f a w'
               | (Raise e, w') => (Raise e, w')
               end.
Proof. reflexivity. Qed.

Lemma run_ret {A} (a : A) w : (mret a : M A) w = (Ok a, w).
Proof. reflexivity. Qed.

Lemma run_lift {A} (r : Res A) w : lift r w = (r, w).
Proof. reflexivity. Qed.

Lemma run_get_pack w r d :
  packs w !! r = Some d → get_pack r w = (Ok d, w).
Proof. intros H. unfold get_pack. by rewrite H. Qed.

Lemma run_get_frame w r df :
  frames w !! r = Some df → get_frame r w = (Ok df, w).
Proof. intros H. unfold get_frame. by rewrite H. Qed.

Lemma res_bind_Ok {A B} (f : A → Res B) a : (Ok a ≫= f) = f a.
Proof. reflexivity. Qed.

Lemma res_fmap_Ok {A B} (f : A → B) a : f <$> Ok a = Ok (f a).
Proof. reflexivity. Qed.

(** Rewriting a computation one step forward. *)
Ltac step :=
  first
    [ rewrite run_bind
    | rewrite run_ret
    | rewrite run_lift
    | rewrite res_bind_Ok
    | rewrite res_fmap_Ok
    | erewrite run_get_pack by eassumption
    | erewrite run_get_frame by eassumption ].

Ltac steps := repeat (step; cbv beta iota).

(** ** Columns *)

Lemma column_position_Some cols c :
  c ∈ cols → is_Some (pd.column_position cols c).
Proof.
  induction cols as [|c' cols IH]; [by inversion 1|].
  intros Hin. simpl. destruct (decide (c' = c)); [by eexists|].
  apply elem_of_cons in Hin as [?|Hin]; [congruence|].
  destruct (IH Hin) as [p ->]. by eexists.
Qed.

Lemma column_position_None cols c :
  c ∉ cols → pd.column_position cols c = None.
Proof.
  induction cols as [|c' cols IH]; [done|].
  rewrite not_elem_of_cons. intros [Hne Hnin]. simpl.
  rewrite decide_False by congruence. by rewrite IH.
Qed.

Lemma column_position_lookup cols c p :
  pd.column_position cols c = Some p → cols !! p = Some c.
Proof.
  revert p. induction cols as [|c' cols IH]; [done|]. intros p. simpl.
  destruct (decide (c' = c)) as [->|].
  - by intros [= <-].
  - destruct (pd.column_position cols c) as [q|]; [|done].
    intros [= <-]. simpl. by apply IH.
Qed.

Lemma getitem_Ok df c :
  c ∈ columns df →
  pd.getitem df c = Ok (mkSeries c ((λ r, (r.1, field df r c)) <$> rows df)).
Proof.
  intros [p Hp]%column_position_Some. unfold pd.getitem, field.
  by rewrite Hp.
Qed.


Lemma loc_range df idx :
  range_index df →
  valid_positions (length (rows df)) idx →
  pd.loc df (VInt <$> idx)
  = Ok (mkFrame (index_name df) (columns df) (selected df idx)).
Proof.
  intros Hr Hv. unfold pd.loc. by rewrite take_labels_range.
Qed.

(** ** The view reads, and only reads *)

Lemma view_getitem_run w self relation left right index :
  holds w self relation left right →
  DataPackFrameView.__getitem__ (mkView self) index w
  = (slice relation left right index, w).
Proof.
  intros (d & Hd & Hrel & Hl & Hr).
  unfold DataPackFrameView.__getitem__, slice, DataPack.__len__,
    DataPack.left, DataPack.right, DataPack.relation. simpl.
  steps.
  destruct (_convert_to_list_index _ _) as [idx|e]; [|done].
  steps.
  destruct (ids ← pd.getitem relation "id_left"; _) as [left_df|e];
    [|done].
  steps.
  destruct (ids ← pd.getitem relation "id_right"; _) as [right_df|e];
    [|done].
  steps.
  by destruct (pd.join left_df right_df) as [joined_table|e].
Qed.

(** ** Looking entities up *)

Lemma assoc_unique rs id cells :
  NoDup rs.*1 → (id, cells) ∈ rs → assoc id rs = Some cells.
Proof.
  induction rs as [|[k c] rs IH]; [by inversion 2|].
  rewrite fmap_cons, NoDup_cons. simpl.
  intros [Hnin Hnd] [[= -> ->]|Hin]%elem_of_cons.
  - by rewrite decide_True.
  - rewrite decide_False; [auto|]. intros ->. apply Hnin.
    by apply (list_elem_of_fmap_2 fst _ (id, cells)).
Qed.

Lemma at_label_assoc rs id :
  NoDup rs.*1 → id ∈ rs.*1 →
  pd.at_label rs id = [(id, default [] (assoc id rs))].
Proof.
  intros Hnd ([k c] & -> & Hin)%list_elem_of_fmap. simpl.
  rewrite (assoc_unique _ _ _ Hnd Hin). simpl.
  by apply (at_label_unique rs (k, c)).
Qed.

Lemma bind_singletons {A B} (f : A → list B) (g : A → B) l :
  Forall (λ x, f x = [g x]) l → l ≫= f = g <$> l.
Proof.
  induction 1 as [|x l Hx _ IH]; [done|].
  by rewrite bind_cons, Hx, IH.
Qed.

Lemma loc_entities df ids :
  unique_keys df →
  Forall (λ id, id ∈ pd.index df) ids →
  pd.loc df ids
  = Ok (mkFrame (index_name df) (columns df)
          ((λ id, (id, default [] (assoc id (rows df)))) <$> ids)).
Proof.
  intros Hnd Hin. unfold pd.loc, pd.take_labels.
  rewrite decide_True by done. simpl. do 2 f_equal.
  apply bind_singletons. eapply Forall_impl; [exact Hin|].
  intros id Hid. simpl. by apply at_label_assoc.
Qed.

Lemma reset_index_Ok df :
  index_label df ∉ columns df →
  pd.reset_index df
  = Ok (mkFrame None (index_label df :: columns df)
          (numbered ((λ r, r.1 :: r.2) <$> rows df))).
Proof.
  intros Hnin. unfold pd.reset_index. fold (index_label df).
  rewrite decide_False by done. do 2 f_equal.
  unfold numbered. by rewrite imap_fmap.
Qed.

Lemma reset_index_drop_numbered df :
  pd.reset_index_drop df = mkFrame None (columns df) (numbered (rows df).*2).
Proof.
  unfold pd.reset_index_drop, numbered. by rewrite imap_fmap.
Qed.

(** ** Joining renumbered frames *)

Lemma at_label_numbered {A} (xs : list A) k x :
  xs !! k = Some x →
  pd.at_label (numbered xs) (VInt (Z.of_nat k)) = [(VInt (Z.of_nat k), x)].
Proof.
  intros Hk. apply at_label_range.
  - by rewrite numbered_index, numbered_length.
  - by rewrite numbered_lookup, Hk.
Qed.

(** Two frames renumbered over the same rows join row by row. *)
Lemma join_numbered {A} (F G : A → list Value) (S : list A) n1 c1 n2 c2 :
  (∀ c, c ∈ c1 → c ∉ c2) →
  pd.join (mkFrame n1 c1 (numbered (F <$> S)))
          (mkFrame n2 c2 (numbered (G <$> S)))
  = Ok (mkFrame n1 (c1 ++ c2) (numbered ((λ x, F x ++ G x) <$> S))).
Proof.
  intros Hdisj. unfold pd.join. simpl.
  rewrite decide_False.
  2:{ rewrite Exists_exists. intros (c & Hc1 & Hc2). by apply (Hdisj c). }
  do 2 f_equal.
  rewrite (bind_singletons _
    (λ lr, (lr.1, lr.2 ++ match lr.1 with
                          | VInt k => default [] ((G <$> S) !! Z.to_nat k)
                          | _ => []
                          end))).
  - apply list_eq. intros k.
    rewrite list_lookup_fmap, !numbered_lookup, !list_lookup_fmap.
    destruct (S !! k) as [x|] eqn:Hk; [|done]. simpl.
    by rewrite Nat2Z.id, list_lookup_fmap, Hk.
  - apply Forall_lookup. intros k [l cells].
    rewrite numbered_lookup, list_lookup_fmap.
    destruct (S !! k) as [x|] eqn:Hk; [|done]. intros [= <- <-]. simpl.
    rewrite (at_label_numbered _ k (G x))
      by (by rewrite list_lookup_fmap, Hk).
    simpl. by rewrite Nat2Z.id, list_lookup_fmap, Hk.
Qed.

Lemma selected_elem df idx r :
  valid_positions (length (rows df)) idx →
  r ∈ selected df idx → r ∈ rows df.
Proof.
  intros Hv (i & -> & Hi)%list_elem_of_fmap.
  unfold valid_positions in Hv. rewrite Forall_forall in Hv.
  specialize (Hv i Hi).
  apply list_elem_of_lookup_total_2. lia.
Qed.


Lemma series_getitem_Ok df c idx :
  range_index df →
  valid_positions (length (rows df)) idx →
  pd.series_getitem (mkSeries c ((λ r, (r.1, field df r c)) <$> rows df)) idx
  = Ok (mkSeries c ((λ r, (r.1, field df r c)) <$> selected df idx)).
Proof.
  intros Hr Hv. unfold pd.series_getitem. simpl.
  rewrite take_labels_range.
  - simpl. f_equal. f_equal. unfold selected.
    rewrite <- list_fmap_compose. apply Forall_fmap_ext_1.
    eapply Forall_impl; [exact Hv|]. intros i [Hi1 Hi2]. simpl.
    by rewrite (@list_lookup_total_fmap _ _ _ _ _ (rows df)) by lia.
  - rewrite length_fmap, <- list_fmap_compose. exact Hr.
  - by rewrite length_fmap.
Qed.

Lemma join_labels_range relation idx (JF : Value * list Value → list Value)
    n1 cs cols :
  range_index relation →
  valid_positions (length (rows relation)) idx →
  (∀ c, c ∈ cols → c ∈ columns relation) →
  NoDup (cs ++ filter (λ c, ¬ is_identifier c) cols) →
  DataPackFrameView.join_labels relation idx
    (mkFrame n1 cs (numbered (JF <$> selected relation idx))) cols
  = Ok (mkFrame n1 (cs ++ filter (λ c, ¬ is_identifier c) cols)
          (numbered ((λ r, JF r ++ (field relation r
                                     <$> filter (λ c, ¬ is_identifier c) cols))
                       <$> selected relation idx))).
Proof.
  intros Hr Hv. revert cs JF.
  induction cols as [|c cols IH]; intros cs JF Hin Hnd; simpl.
  - rewrite app_nil_r. do 3 f_equal. apply list_fmap_ext.
    intros _ r _. by rewrite app_nil_r.
  - destruct (decide (c ∉ ["id_left"; "id_right"])) as [Hc|Hc].
    + rewrite filter_cons_True in Hnd |- * by done.
      rewrite getitem_Ok by (apply Hin; left). rewrite res_bind_Ok.
      rewrite series_getitem_Ok by done. rewrite res_bind_Ok.
      rewrite reset_index_drop_numbered. simpl.
      rewrite <- !list_fmap_compose.
      rewrite (join_numbered JF (λ r, [field relation r c])).
      2:{ intros c' Hc' ->%list_elem_of_singleton.
          apply NoDup_app in Hnd as (_ & Hnd & _).
          apply (Hnd c Hc'). left. }
      rewrite res_bind_Ok, IH.
      * rewrite <- app_assoc. do 3 f_equal. apply list_fmap_ext.
        intros _ r _. by rewrite <- app_assoc.
      * intros c' Hc'. apply Hin. by right.
      * by rewrite <- app_assoc.
    + rewrite filter_cons_False in Hnd |- * by done.
      apply IH; [|done]. intros c' Hc'. apply Hin. by right.
Qed.

Lemma column_values_selected relation idx c r :
  valid_positions (length (rows relation)) idx →
  r ∈ selected relation idx →
  field relation r c ∈ column_values relation c.
Proof.
  intros Hv Hin. unfold column_values.
  apply (list_elem_of_fmap_2 (λ r, field relation r c)).
  by eapply selected_elem.
Qed.

Lemma values_series {A} c (g : Value * A → Value) rs :
  pd.values (mkSeries c ((λ r, (r.1, g r)) <$> rs)) = g <$> rs.
Proof. unfold pd.values. simpl. by rewrite <- list_fmap_compose. Qed.

(** What the slicer computes on a well-formed data pack. *)
Lemma slice_spec relation left right index idx :
  relation_ok relation →
  unique_keys left → unique_keys right →
  referential_integrity relation left right →
  NoDup (joined_columns relation left right) →
  _convert_to_list_index index (pd.shape0 relation) = Ok idx →
  valid_positions (length (rows relation)) idx →
  slice relation left right index
  = Ok (mkFrame None (joined_columns relation left right)
          (numbered (joined_row relation left right
                       <$> selected relation idx))).
Proof.
  intros (Hr & Hidl & Hidr) Hul Hur [Hrefl Hrefr] Hnd Hconv Hv.
  rewrite Forall_forall in Hrefl, Hrefr.
  unfold slice. rewrite Hconv, res_bind_Ok.
  unfold joined_columns in Hnd.
  pose proof Hnd as Hnd'.
  apply NoDup_app in Hnd' as (Hndl & Hdisj1 & Hnd').
  apply NoDup_app in Hnd' as (Hndr & Hdisj2 & Hndo).
  apply NoDup_cons in Hndl as [Hil _]. apply NoDup_cons in Hndr as [Hir _].
  rewrite (getitem_Ok relation "id_left") by done. rewrite res_bind_Ok.
  rewrite series_getitem_Ok by done. rewrite res_bind_Ok.
  rewrite values_series.
  rewrite loc_entities; [|done|].
  2:{ rewrite Forall_fmap. apply Forall_forall. intros r Hin. simpl.
      apply Hrefl. by eapply column_values_selected. }
  rewrite res_bind_Ok, reset_index_Ok by done. simpl.
  rewrite (getitem_Ok relation "id_right") by done. rewrite res_bind_Ok.
  rewrite series_getitem_Ok by done. rewrite res_bind_Ok.
  rewrite values_series.
  rewrite loc_entities; [|done|].
  2:{ rewrite Forall_fmap. apply Forall_forall. intros r Hin. simpl.
      apply Hrefr. by eapply column_values_selected. }
  rewrite res_bind_Ok, reset_index_Ok by done. simpl.
  rewrite <- !list_fmap_compose.
  rewrite (join_numbered
             (λ r, entity left (field relation r "id_left"))
             (λ r, entity right (field relation r "id_right"))).
  2:{ intros c Hc Hc'. apply (Hdisj1 c Hc). apply elem_of_app. by left. }
  rewrite res_bind_Ok.
  rewrite join_labels_range; [|done|done|done|by rewrite <- app_assoc].
  rewrite <- app_assoc. do 3 f_equal. apply list_fmap_ext.
  intros _ r _. unfold joined_row. by rewrite <- app_assoc.
Qed.

(** ** Slices and positions *)

Lemma convert_full_slice (n : nat) :
  _convert_to_list_index (ISlice None None None) (Z.of_nat n)
  = Ok (Z.of_nat <$> seq 0 n).
Proof.
  unfold _convert_to_list_index, slice_indices. simpl. unfold py_range.
  rewrite decide_True by lia.
  replace (Z.of_nat n - 0 + 1 - 1) with (Z.of_nat n) by lia.
  rewrite Z.div_1_r, Nat2Z.id. f_equal.
  apply list_fmap_ext. intros _ k _. lia.
Qed.

Lemma valid_positions_seq n : valid_positions n (Z.of_nat <$> seq 0 n).
Proof.
  unfold valid_positions. rewrite Forall_fmap. apply Forall_forall.
  intros k Hk%elem_of_seq. simpl. lia.
Qed.

Lemma selected_seq df :
  selected df (Z.of_nat <$> seq 0 (length (rows df))) = rows df.
Proof.
  unfold selected. apply list_eq. intros k.
  rewrite <- list_fmap_compose, list_lookup_fmap.
  destruct (rows df !! k) as [r|] eqn:Hk.
  - rewrite lookup_seq_lt by (by eapply lookup_lt_Some). simpl.
    rewrite Nat2Z.id. f_equal. by apply list_lookup_total_correct.
  - by rewrite lookup_seq_ge by (by apply lookup_ge_None).
Qed.


Lemma len_run w self relation left right :
  holds w self relation left right →
  DataPack.__len__ self w = (Ok (Z.of_nat (length (rows relation))), w).
Proof.
  intros (d & Hd & Hrel & _). unfold DataPack.__len__. by steps.
Qed.

(** ** The rows of the joined table *)


(** ** New objects *)

Lemma fresh_frame_None w : frames w !! fresh (dom (frames w)) = None.
Proof. apply not_elem_of_dom, is_fresh. Qed.

Lemma fresh_pack_None w : packs w !! fresh (dom (packs w)) = None.
Proof. apply not_elem_of_dom, is_fresh. Qed.

Lemma untouched_refl w : untouched w w.
Proof. by split. Qed.

Lemma untouched_holds w w' self relation left right :
  untouched w w' →
  holds w self relation left right → holds w' self relation left right.
Proof.
  intros [Hf Hp] (d & Hd & Hrel & Hl & Hr). exists d.
  repeat split; by eapply lookup_weaken.
Qed.

Lemma run_new_frame df w :
  new_frame df w
  = (Ok (fresh (dom (frames w))),
     mkWorld (<[fresh (dom (frames w)) := df]> (frames w))
             (packs w) (fs w) (rng w)).
Proof. reflexivity. Qed.

Lemma run_set_frame r df w :
  set_frame r df w
  = (Ok (), mkWorld (<[r := df]> (frames w)) (packs w) (fs w) (rng w)).
Proof. reflexivity. Qed.

Lemma run_set_pack r d w :
  set_pack r d w
  = (Ok (), mkWorld (frames w) (<[r := d]> (packs w)) (fs w) (rng w)).
Proof. reflexivity. Qed.

Lemma run_draw g w :
  draw g w
  = (Ok (rng w), mkWorld (frames w) (packs w) (fs w) (advance g (rng w))).
Proof. reflexivity. Qed.

Lemma new_frame_run w df :
  ∃ r w', new_frame df w = (Ok r, w')
          ∧ frames w !! r = None
          ∧ frames w' = <[r := df]> (frames w)
          ∧ packs w' = packs w ∧ fs w' = fs w ∧ rng w' = rng w.
Proof.
  do 2 eexists. split; [reflexivity|]. simpl.
  split; [apply fresh_frame_None|done].
Qed.

Lemma new_pack_run w d :
  ∃ r w', new_pack d w = (Ok r, w')
          ∧ packs w !! r = None
          ∧ packs w' = <[r := d]> (packs w)
          ∧ frames w' = frames w ∧ fs w' = fs w ∧ rng w' = rng w.
Proof.
  do 2 eexists. split; [reflexivity|]. simpl.
  split; [apply fresh_pack_None|done].
Qed.

Lemma store_tables_run w relation left right :
  ∃ p w', store_tables relation left right w = (Ok p, w')
          ∧ new_pack_in w w' p relation left right
          ∧ untouched w w'
          ∧ fs w' = fs w ∧ rng w' = rng w.
Proof.
  unfold store_tables.
  destruct (new_frame_run w left)
    as (l & w1 & Hrun1 & Hl & Hf1 & Hp1 & ? & ?).
  destruct (new_frame_run w1 right)
    as (r & w2 & Hrun2 & Hr & Hf2 & Hp2 & ? & ?).
  destruct (new_frame_run w2 relation)
    as (rel & w3 & Hrun3 & Hrel & Hf3 & Hp3 & ? & ?).
  destruct (new_pack_run w3 (mkDataPack rel l r))
    as (p & w4 & Hrun4 & Hp & Hp4 & Hf4 & ? & ?).
  exists p, w4. rewrite run_bind, Hrun1. cbv beta iota.
  rewrite run_bind, Hrun2. cbv beta iota.
  rewrite run_bind, Hrun3. cbv beta iota. rewrite Hrun4.
  rewrite Hf2, Hf1 in Hrel. rewrite Hf1 in Hr.
  apply lookup_insert_None in Hrel as [Hrel Hne1].
  apply lookup_insert_None in Hrel as [Hrel Hne2].
  apply lookup_insert_None in Hr as [Hr Hne3].
  rewrite Hp3, Hp2, Hp1 in Hp.
  split; [done|]. split; [|split; [|split; congruence]].
  - split; [done|]. exists (mkDataPack rel l r). simpl.
    rewrite Hp4, Hf4, Hf3, Hf2, Hf1.
    rewrite lookup_insert_eq. repeat split; try done.
    + by rewrite lookup_insert_eq.
    + by rewrite lookup_insert_ne, lookup_insert_ne, lookup_insert_eq.
    + by rewrite lookup_insert_ne, lookup_insert_eq.
  - split.
    + rewrite Hf4, Hf3, Hf2, Hf1.
      etrans; [|apply insert_subseteq];
        [|by rewrite !lookup_insert_ne by done].
      etrans; [|apply insert_subseteq]; [|by rewrite lookup_insert_ne].
      by apply insert_subseteq.
    + rewrite Hp4, Hp3, Hp2, Hp1. by apply insert_subseteq.
Qed.

Lemma copy_run w self relation left right :
  holds w self relation left right →
  DataPack.copy self w = store_tables relation left right w.
Proof.
  intros (d & Hd & Hrel & Hl & Hr).
  unfold DataPack.copy, store_tables. steps.
  assert (∀ (X : gmap ref DataFrame) r df df',
            X !! r = Some df → <[fresh (dom X) := df']> X !! r = Some df)
    as Hkeep.
  { intros X r df df' HX. rewrite lookup_insert_ne; [done|].
    intros <-. by rewrite (not_elem_of_dom_1 X (fresh (dom X)))
      in HX by apply is_fresh. }
  rewrite !run_new_frame. cbv beta iota.
  rewrite (run_bind (get_frame _)).
  rewrite (run_get_frame _ _ right) by (simpl; by apply Hkeep).
  cbv beta iota. rewrite !(run_bind (new_frame _)), !run_new_frame.
  cbv beta iota. rewrite (run_bind (get_frame _)).
  by rewrite (run_get_frame _ _ relation)
    by (simpl; by do 2 apply Hkeep).
Qed.

(** ** Distinct values in order of first appearance *)

Lemma elem_of_unique_from seen l x :
  x ∈ pd.unique_from seen l ↔ x ∈ l ∧ x ∉ seen.
Proof.
  revert seen. induction l as [|y l IH]; intros seen; simpl.
  - rewrite elem_of_nil. tauto.
  - destruct (decide (y ∈ seen)) as [Hy|Hy].
    + rewrite IH, elem_of_cons. split; [tauto|].
      intros [[->|?] ?]; tauto.
    + rewrite elem_of_cons, IH, not_elem_of_cons, elem_of_cons.
      split.
      * intros [->|(? & ? & ?)]; tauto.
      * intros [[->|?] ?]; [tauto|].
        destruct (decide (x = y)); tauto.
Qed.


Lemma unique_from_seen seen seen' l :
  (∀ x, x ∈ seen ↔ x ∈ seen') →
  pd.unique_from seen l = pd.unique_from seen' l.
Proof.
  revert seen seen'. induction l as [|y l IH]; intros seen seen' Hs; [done|].
  simpl. destruct (decide (y ∈ seen)) as [Hy|Hy].
  - rewrite decide_True by (by apply Hs). by apply IH.
  - rewrite decide_False by (by rewrite <- Hs). f_equal. apply IH.
    intros x. rewrite !elem_of_cons, Hs. tauto.
Qed.

(** [unique] keeps exactly the first occurrences, in their order. *)
Lemma unique_from_prefix pre l :
  pd.unique_from (reverse pre) l
  = omap id (imap (λ i x, if decide (x ∈ take (length pre + i) (pre ++ l))
                          then None else Some x) l).
Proof.
  revert pre. induction l as [|y l IH]; intros pre; [done|].
  simpl. rewrite Nat.add_0_r, take_app_length.
  assert (imap ((λ i x, if decide (x ∈ take (length pre + i)
                                         (pre ++ y :: l))
                        then None else Some x) ∘ S) l
          = imap (λ i x, if decide (x ∈ take (length (pre ++ [y]) + i)
                                          ((pre ++ [y]) ++ l))
                         then None else Some x) l) as ->.
  { apply imap_ext. intros i x _. simpl.
    rewrite length_app, <- app_assoc. simpl.
    by replace (length pre + S i)%nat with (length pre + 1 + i)%nat by lia. }
  rewrite <- IH, reverse_snoc.
  destruct (decide (y ∈ reverse pre)) as [Hy|Hy].
  - rewrite decide_True by (by apply elem_of_reverse).
    apply unique_from_seen. intros x. rewrite elem_of_cons.
    split; [tauto|]. by intros [->|?].
  - by rewrite decide_False by (by rewrite <- elem_of_reverse).
Qed.

Lemma unique_first_occurrences l :
  pd.unique_from [] l = first_occurrences l.
Proof. apply (unique_from_prefix [] l). Qed.


(** ** Selecting rows of a data pack *)

Lemma getitem_run w self relation left right index :
  holds w self relation left right →
  DataPack.__getitem__ self index w
  = match select_tables relation left right index with
    | Ok (relation', left', right') =>
        store_tables relation' left' right' w
    | Raise e => (Raise e, w)
    end.
Proof.
  intros Hh. pose proof Hh as (d & Hd & Hrel & Hl & Hr).
  unfold DataPack.__getitem__, select_tables.
  rewrite run_bind, (len_run _ _ _ _ _ Hh). cbv beta iota.
  unfold pd.shape0. steps.
  destruct (_convert_to_list_index _ _) as [idx|e]; [|done].
  steps.
  destruct (pd.loc relation (VInt <$> idx)) as [rel'|e]; [|done].
  steps.
  destruct (ids ← pd.getitem _ "id_left"; _) as [left'|e]; [|done].
  steps.
  by destruct (ids ← pd.getitem _ "id_right"; _) as [right'|e].
Qed.

Lemma column_values_selected_relation relation idx c :
  column_values (selected_relation relation idx) c
  = (λ r, field relation r c) <$> selected relation idx.
Proof.
  unfold column_values. simpl. apply list_eq. intros k.
  rewrite !list_lookup_fmap, numbered_lookup, list_lookup_fmap.
  by destruct (selected relation idx !! k) as [[l cells]|].
Qed.


Lemma new_pack_in_holds w w' p relation left right :
  new_pack_in w w' p relation left right →
  holds w' p relation left right.
Proof. intros (_ & d & Hd & _ & _ & _ & ? & ? & ?). by exists d. Qed.




(** The keys of a restricted table are the identifiers asked for. *)
Lemma index_restricted table ids v :
  Forall (λ id, id ∈ pd.index table) ids →
  v ∈ pd.index (restricted table ids) ↔ v ∈ ids.
Proof.
  intros Hin. rewrite Forall_forall in Hin.
  unfold pd.index at 1, restricted. simpl.
  rewrite <- unique_first_occurrences, list_elem_of_fmap. split.
  - intros (r & -> & (id & Hr & Hid)%list_elem_of_bind).
    apply list_elem_of_filter in Hr as [-> _].
    by apply elem_of_unique_from in Hid as [? _].
  - intros Hv. pose proof (Hin v Hv) as Hx.
    apply list_elem_of_fmap in Hx as (r & -> & Hr).
    exists r. split; [done|]. apply list_elem_of_bind. exists r.1.
    split; [by apply list_elem_of_filter|].
    apply elem_of_unique_from. split; [done|apply not_elem_of_nil].
Qed.




(** A table restricted through the identifiers of column [c]: when the
    lookup returns, the column is there, every identifier in it is a key
    of the table, and the result is the table restricted to them. *)
Lemma select_side_inv relation table c t :
  (ids ← pd.getitem relation c; pd.loc table (pd.unique ids)) = Ok t →
  c ∈ columns relation
  ∧ Forall (λ v, v ∈ pd.index table) (column_values relation c)
  ∧ t = restricted table (column_values relation c).
Proof.
  intros Hrun.
  assert (c ∈ columns relation) as Hc.
  { destruct (decide (c ∈ columns relation)) as [|Hn]; [done|].
    unfold pd.getitem in Hrun.
    by rewrite (column_position_None _ _ Hn) in Hrun. }
  split; [done|]. revert Hrun.
  rewrite getitem_Ok by done. rewrite res_bind_Ok.
  unfold pd.unique. rewrite values_series.
  fold (column_values relation c).
  unfold pd.loc, pd.take_labels.
  destruct (decide (Forall (λ l, l ∈ (rows table).*1)
                      (pd.unique_from [] (column_values relation c))))
    as [Hall|]; [|done].
  simpl. intros [= <-]. split.
  - rewrite Forall_forall in Hall. apply Forall_forall. intros v Hv.
    apply Hall, elem_of_unique_from. split; [done|apply not_elem_of_nil].
  - unfold restricted. by rewrite unique_first_occurrences.
Qed.

(** What [__getitem__] has selected whenever it selects: a relation
    numbered from zero with both identifier columns, and each entity
    table restricted to identifiers that are all keys of it. *)
Lemma select_tables_inv relation left right index relation' left' right' :
  select_tables relation left right index = Ok (relation', left', right') →
  relation_ok relation'
  ∧ Forall (λ v, v ∈ pd.index left) (column_values relation' "id_left")
  ∧ left' = restricted left (column_values relation' "id_left")
  ∧ Forall (λ v, v ∈ pd.index right) (column_values relation' "id_right")
  ∧ right' = restricted right (column_values relation' "id_right").
Proof.
  unfold select_tables.
  destruct (_convert_to_list_index index (pd.shape0 relation)) as [idx|];
    [|done].
  rewrite res_bind_Ok.
  destruct (pd.loc relation (VInt <$> idx)) as [selected|]; [|done].
  rewrite res_fmap_Ok, res_bind_Ok.
  destruct (ids ← pd.getitem (pd.reset_index_drop selected) "id_left"; _)
    as [l|] eqn:Hl; [|done].
  rewrite res_bind_Ok.
  destruct (ids ← pd.getitem (pd.reset_index_drop selected) "id_right"; _)
    as [r|] eqn:Hr; [|done].
  rewrite res_bind_Ok. intros [= <- <- <-].
  apply select_side_inv in Hl as (Hcl & Hal & ->).
  apply select_side_inv in Hr as (Hcr & Har & ->).
  split; [|done]. split; [|done].
  rewrite reset_index_drop_numbered. unfold range_index, pd.index.
  cbn [rows]. by rewrite numbered_index, numbered_length.
Qed.

(** C3.  Referential integrity is preserved by selection.  Whatever the
    data pack and the index, [__getitem__] either raises and leaves the
    store as it was, or returns a data pack that satisfies the invariant:
    every identifier of its relation is a key of its left (right) table,
    and the keys of its left (right) table are exactly the identifiers
    its relation still mentions; its relation has the default index and
    both identifier columns. *)
Theorem getitem_preserves_integrity w self relation left right index r w' :
  holds w self relation left right →
  DataPack.__getitem__ self index w = (r, w') →
  match r with
  | Ok p =>
      ∃ relation' left' right',
        holds w' p relation' left' right'
        ∧ relation_ok relation'
        ∧ referential_integrity relation' left' right'
        ∧ (∀ v, v ∈ pd.index left' ↔ v ∈ column_values relation' "id_left")
        ∧ (∀ v, v ∈ pd.index right'
                ↔ v ∈ column_values relation' "id_right")
  | Raise _ => w' = w
  end.
Proof.
  intros Hh. rewrite (getitem_run _ _ _ _ _ _ Hh).
  destruct (select_tables relation left right index)
    as [[[relation' left'] right']|e] eqn:Hsel.
  - destruct (store_tables_run w relation' left' right')
      as (p & w1 & -> & Hnew & _).
    intros [= <- <-].
    apply select_tables_inv in Hsel as (Hrel & Hl & -> & Hr & ->).
    exists relation'. do 2 eexists.
    split; [by eapply new_pack_in_holds|]. split; [done|].
    split; [|split; intros v; by apply index_restricted].
    split; apply Forall_forall; intros v Hin; by apply index_restricted.
  - by intros [= <- <-].
Qed.

(** ** Slices stay inside the table *)



(** ** Negative positions *)

Lemma loc_negative df i :
  range_index df → i < 0 → pd.loc df [VInt i] = Raise KeyError.
Proof.
  intros Hr Hi. unfold pd.loc, pd.take_labels.
  rewrite decide_False; [done|].
  intros Hin%Forall_cons_1. destruct Hin as [Hin _].
  unfold range_index, pd.index in Hr. rewrite Hr in Hin.
  apply elem_of_range_labels in Hin as (k & [= ->] & _). lia.
Qed.

Lemma slice_negative_bound (i n lower upper : Z) :
  - n ≤ i < 0 → lower ≤ 0 → n - 1 ≤ upper →
  (if decide (i < 0) then Z.max (i + n) lower else Z.min i upper)
  = (if decide (i + n < 0) then Z.max (i + n + n) lower
     else Z.min (i + n) upper).
Proof. intros. repeat case_decide; lia. Qed.

(** C10.  An integer index is looked up as a label: on a relation with
    the default index a negative integer is no label, and the selection
    raises [KeyError], the store unchanged.  Inside a slice a negative
    bound [i] with [-n ≤ i] stands for [i + n], [n] the length of the
    table; [dp[-1:]] in particular denotes the last position. *)
Theorem getitem_negative_integer w self relation left right i :
  holds w self relation left right →
  range_index relation →
  i < 0 →
  DataPack.__getitem__ self (IInt i) w = (Raise KeyError, w)
  ∧ (let n := pd.shape0 relation in
     (- n ≤ i →
      ∀ bound step,
        _convert_to_list_index (ISlice (Some i) bound step) n
        = _convert_to_list_index (ISlice (Some (i + n)) bound step) n
        ∧ _convert_to_list_index (ISlice bound (Some i) step) n
          = _convert_to_list_index (ISlice bound (Some (i + n)) step) n)
     ∧ (0 < n →
        _convert_to_list_index (ISlice (Some (-1)) None None) n
        = Ok [n - 1])).
Proof.
  intros Hh Hr Hi. split; [|split].
  - rewrite (getitem_run _ _ _ _ _ _ Hh). unfold select_tables. simpl.
    by rewrite loc_negative.
  - intros Hn bound step.
    assert (0 ≤ pd.shape0 relation) as Hlen by (unfold pd.shape0; lia).
    unfold _convert_to_list_index, slice_indices. cbv zeta.
    destruct (decide (default 1 step = 0)); [done|].
    rewrite (slice_negative_bound i) by (try case_decide; lia).
    done.
  - intros Hn. unfold _convert_to_list_index, slice_indices. simpl.
    rewrite Z.max_l by lia. unfold py_range. rewrite decide_True by lia.
    replace (pd.shape0 relation - (-1 + pd.shape0 relation) + 1 - 1)
      with 1 by lia.
    simpl. f_equal. f_equal. lia.
Qed.

(** ** The optional-inplace wrapper *)

Lemma optional_inplace_self func self w :
  DataPack._optional_inplace func self true w
  = match func self w with
    | (Ok _, w') => (Ok None, w')
    | (Raise e, w') => (Raise e, w')
    end.
Proof.
  unfold DataPack._optional_inplace. steps.
  by destruct (func self w) as [[[]|e] w'].
Qed.

Lemma optional_inplace_copy func w self relation left right p w1 :
  holds w self relation left right →
  store_tables relation left right w = (Ok p, w1) →
  DataPack._optional_inplace func self false w
  = match func p w1 with
    | (Ok _, w') => (Ok (Some p), w')
    | (Raise e, w') => (Raise e, w')
    end.
Proof.
  intros Hh Hs. unfold DataPack._optional_inplace.
  rewrite run_bind, (copy_run _ _ _ _ _ Hh), Hs. cbv beta iota.
  rewrite run_bind. by destruct (func p w1) as [[[]|e] w'].
Qed.

Lemma has_label_run w self relation left right :
  holds w self relation left right →
  DataPack.has_label self w
  = (Ok (bool_decide ("label" ∈ columns relation)), w).
Proof.
  intros (d & Hd & Hrel & _). unfold DataPack.has_label. by steps.
Qed.

Lemma only_target_untouched t w0 w w' :
  packs w0 !! t = None →
  untouched w0 w → only_target t w w' → untouched w0 w'.
Proof.
  intros Ht [Hf Hp] [Hf' Hp']. split; [by etrans|].
  apply map_subseteq_spec. intros q d Hq.
  rewrite Hp' by (intros ->; congruence).
  by eapply lookup_weaken.
Qed.

(** ** Dropping the label *)

Lemma drop_Ok df c : c ∈ columns df → pd.drop df c = Ok (dropped df c).
Proof. intros Hc. unfold pd.drop. by rewrite decide_True. Qed.

Lemma drop_Raise df c : c ∉ columns df → pd.drop df c = Raise KeyError.
Proof. intros Hc. unfold pd.drop. by rewrite decide_False. Qed.

Lemma dropped_columns df c : c ∉ columns (dropped df c).
Proof. simpl. rewrite list_elem_of_filter. tauto. Qed.

Lemma wrapped_drop_label_Ok w self relation left right :
  holds w self relation left right →
  "label" ∈ columns relation →
  ∃ w', DataPack.wrapped.drop_label self w = (Ok (), w')
        ∧ holds w' self (dropped relation "label") left right
        ∧ only_target self w w'.
Proof.
  intros (d & Hd & Hrel & Hl & Hr) Hc.
  unfold DataPack.wrapped.drop_label. steps.
  rewrite drop_Ok by done. steps. rewrite run_new_frame. cbv beta iota.
  eexists. split; [reflexivity|].
  pose proof (fresh_frame_None w) as Hfresh.
  split; [|split].
  - exists (mkDataPack (fresh (dom (frames w))) (_left d) (_right d)).
    simpl. rewrite !lookup_insert_eq.
    split; [done|]. split; [done|].
    split; (rewrite lookup_insert_ne; [done|congruence]).
  - simpl. by apply insert_subseteq.
  - intros q Hq. simpl. by rewrite lookup_insert_ne.
Qed.

Lemma wrapped_drop_label_Raise w self relation left right :
  holds w self relation left right →
  "label" ∉ columns relation →
  DataPack.wrapped.drop_label self w = (Raise KeyError, w).
Proof.
  intros (d & Hd & Hrel & Hl & Hr) Hc.
  unfold DataPack.wrapped.drop_label. steps.
  by rewrite drop_Raise.
Qed.

(** Without a label column [drop_label] fails, whichever way it is
    called, and nothing that was in the store has changed. *)
Lemma drop_label_missing w self relation left right inplace :
  holds w self relation left right →
  "label" ∉ columns relation →
  ∃ w', DataPack.drop_label self inplace w = (Raise KeyError, w')
        ∧ untouched w w'
        ∧ (inplace = true → w' = w).
Proof.
  intros Hh Hc. unfold DataPack.drop_label. destruct inplace.
  - exists w. rewrite optional_inplace_self.
    rewrite (wrapped_drop_label_Raise _ _ _ _ _ Hh Hc).
    split; [done|]. split; [apply untouched_refl|done].
  - destruct (store_tables_run w relation left right)
      as (p & w1 & Hrun & Hnew & Hun & _).
    exists w1. rewrite (optional_inplace_copy _ _ _ _ _ _ _ _ Hh Hrun).
    rewrite (wrapped_drop_label_Raise _ _ _ _ _
               (new_pack_in_holds _ _ _ _ _ _ Hnew) Hc).
    split; [done|]. split; [done|]. discriminate.
Qed.

(** C7.  On a data pack with a label column [drop_label] yields a data
    pack without one, over the same left and right tables: the receiver
    itself when called in place, otherwise a new data pack, the receiver
    and everything else in the store staying as they were.  Dropping the
    label of the result again raises [KeyError].  On a data pack without
    a label column [drop_label] raises [KeyError], and nothing that was in
    the store has changed (in place: the store is the same). *)
Theorem drop_label_spec w self relation left right inplace :
  holds w self relation left right →
  ("label" ∈ columns relation →
   ∃ res w' t relation',
     DataPack.drop_label self inplace w = (Ok res, w')
     ∧ res = (if inplace then None else Some t)
     ∧ (if inplace then t = self
        else packs w !! t = None ∧ untouched w w')
     ∧ frames w ⊆ frames w'
     ∧ holds w' t relation' left right
     ∧ columns relation' = filter (λ c, c ≠ "label") (columns relation)
     ∧ DataPack.has_label self w = (Ok true, w)
     ∧ DataPack.has_label t w' = (Ok false, w')
     ∧ ∀ inplace', ∃ w'',
         DataPack.drop_label t inplace' w' = (Raise KeyError, w'')
         ∧ untouched w' w'')
  ∧ ("label" ∉ columns relation →
     ∃ w', DataPack.drop_label self inplace w = (Raise KeyError, w')
           ∧ untouched w w'
           ∧ (inplace = true → w' = w)).
Proof.
  intros Hh. split; [|by apply (drop_label_missing _ _ _ left right)].
  intros Hc.
  assert (∀ w' t, holds w' t (dropped relation "label") left right →
            DataPack.has_label t w' = (Ok false, w')
            ∧ ∀ inplace', ∃ w'',
                DataPack.drop_label t inplace' w' = (Raise KeyError, w'')
                ∧ untouched w' w'') as Hafter.
  { intros w' t Ht. split.
    - rewrite (has_label_run _ _ _ _ _ Ht).
      by rewrite bool_decide_eq_false_2 by apply dropped_columns.
    - intros inplace'.
      destruct (drop_label_missing w' t _ _ _ inplace' Ht
                  (dropped_columns relation "label")) as (w'' & ? & ? & _).
      by exists w''. }
  assert (DataPack.has_label self w = (Ok true, w)) as Hbefore.
  { rewrite (has_label_run _ _ _ _ _ Hh).
    by rewrite bool_decide_eq_true_2. }
  unfold DataPack.drop_label. destruct inplace.
  - destruct (wrapped_drop_label_Ok _ _ _ _ _ Hh Hc)
      as (w' & Hrun & Hh' & Hf & _).
    exists None, w', self, (dropped relation "label").
    rewrite optional_inplace_self, Hrun.
    destruct (Hafter w' self Hh') as [? ?]. by repeat split.
  - destruct (store_tables_run w relation left right)
      as (p & w1 & Hrun1 & Hnew & Hun & _).
    destruct (wrapped_drop_label_Ok _ _ _ _ _
                (new_pack_in_holds _ _ _ _ _ _ Hnew) Hc)
      as (w' & Hrun & Hh' & Honly).
    exists (Some p), w', p, (dropped relation "label").
    rewrite (optional_inplace_copy _ _ _ _ _ _ _ _ Hh Hrun1), Hrun.
    destruct (Hafter w' p Hh') as [? ?].
    pose proof Hnew as [Hp _].
    pose proof (only_target_untouched _ _ _ _ Hp Hun Honly) as Hun'.
    repeat split; try done; apply Hun'.
Qed.

(** ** An unknown mode *)

Lemma wrapped_apply_on_text_bad_mode func mode rename verbose t w :
  mode ≠ "both" → mode ≠ "left" → mode ≠ "right" →
  DataPack.wrapped.apply_on_text func mode rename verbose t w
  = (Raise ValueError, w).
Proof.
  intros ???. unfold DataPack.wrapped.apply_on_text.
  by rewrite !decide_False by done.
Qed.

(** C8.  With a mode other than "left", "right" and "both",
    [apply_on_text] raises [ValueError] whatever the function, the new
    names, the verbosity and the inplace flag: every frame and every data
    pack that was in the store is as it was, so no column of the
    receiver's left or right table has changed; called in place, the
    store is the same. *)
Theorem apply_on_text_bad_mode w self relation left right
    func mode rename verbose inplace :
  holds w self relation left right →
  mode ≠ "both" → mode ≠ "left" → mode ≠ "right" →
  ∃ w', DataPack.apply_on_text self func mode rename verbose inplace w
        = (Raise ValueError, w')
        ∧ untouched w w'
        ∧ holds w' self relation left right
        ∧ (inplace = true → w' = w).
Proof.
  intros Hh Hb Hl Hr. unfold DataPack.apply_on_text. destruct inplace.
  - exists w. rewrite optional_inplace_self.
    rewrite wrapped_apply_on_text_bad_mode by done.
    split; [done|]. split; [apply untouched_refl|done].
  - destruct (store_tables_run w relation left right)
      as (p & w1 & Hrun & Hnew & Hun & _).
    exists w1. rewrite (optional_inplace_copy _ _ _ _ _ _ _ _ Hh Hrun).
    rewrite wrapped_apply_on_text_bad_mode by done.
    split; [done|]. split; [done|].
    split; [by eapply untouched_holds|discriminate].
Qed.

(** ** Shuffling *)

Lemma omap_lookup_seq {A} (l1 l2 : list A) :
  omap (λ i, (l1 ++ l2) !! i) (seq (length l1) (length l2)) = l2.
Proof.
  revert l1. induction l2 as [|x l2 IH]; intros l1; [done|].
  simpl. rewrite list_lookup_middle by done. f_equal.
  specialize (IH (l1 ++ [x])).
  rewrite length_app, <- app_assoc, Nat.add_1_r in IH. exact IH.
Qed.

Lemma omap_lookup_permutation {A} (l : list A) perm :
  perm ≡ₚ seq 0 (length l) → omap (λ i, l !! i) perm ≡ₚ l.
Proof.
  intros ->. pose proof (omap_lookup_seq [] l) as Heq.
  simpl in Heq. by rewrite Heq.
Qed.

Lemma shuffled_range g state relation :
  range_index (shuffled g state relation).
Proof.
  unfold shuffled. rewrite reset_index_drop_numbered.
  unfold range_index, pd.index. simpl.
  by rewrite numbered_index, numbered_length.
Qed.

Lemma shuffled_rows g state relation :
  draws_permutations g →
  (rows (shuffled g state relation)).*2 ≡ₚ (rows relation).*2.
Proof.
  intros Hg. unfold shuffled. rewrite reset_index_drop_numbered. simpl.
  rewrite numbered_snd. apply fmap_Permutation.
  apply omap_lookup_permutation, Hg.
Qed.

Lemma shuffled_length g state relation :
  draws_permutations g →
  length (rows (shuffled g state relation)) = length (rows relation).
Proof.
  intros Hg.
  rewrite <- (length_fmap snd (rows (shuffled _ _ _))).
  rewrite (shuffled_rows _ _ _ Hg). by rewrite length_fmap.
Qed.

Lemma wrapped_shuffle_run g w self relation left right :
  holds w self relation left right →
  ∃ w', DataPack.wrapped.shuffle g self w = (Ok (), w')
        ∧ holds w' self (shuffled g (rng w) relation) left right
        ∧ only_target self w w'.
Proof.
  intros (d & Hd & Hrel & Hl & Hr).
  unfold DataPack.wrapped.shuffle. steps.
  rewrite run_draw. cbv beta iota.
  rewrite run_bind, run_new_frame. cbv beta iota.
  rewrite run_bind, run_set_pack. cbv beta iota.
  rewrite run_bind, (run_get_pack _ _ _ (lookup_insert_eq _ _ _)).
  cbv beta iota.
  rewrite run_bind, (run_get_frame _ _ _ (lookup_insert_eq _ _ _)).
  cbv beta iota. rewrite run_set_frame. simpl.
  eexists. split; [reflexivity|].
  pose proof (fresh_frame_None w) as Hfresh. split; [|split].
  - exists (mkDataPack (fresh (dom (frames w))) (_left d) (_right d)).
    simpl. rewrite !lookup_insert_eq.
    split; [done|]. split; [done|].
    split; (rewrite !lookup_insert_ne; [done|congruence..]).
  - simpl. rewrite insert_insert_eq. by apply insert_subseteq.
  - intros q Hq. simpl. by rewrite lookup_insert_ne.
Qed.

(** C6.  With a generator that draws orderings of all positions,
    [shuffle] yields a data pack whose relation has the cells of the same
    rows, as many of them, numbered from zero, under the same columns, over
    left and right tables equal to the receiver's.  With [inplace] false
    that data pack is new and returned, and the receiver and every other
    object of the store are as they were; with [inplace] true it is the
    receiver, nothing is returned, and no frame that was in the store has
    changed. *)
Theorem shuffle_spec g w self relation left right inplace :
  draws_permutations g →
  holds w self relation left right →
  ∃ res w' t relation',
    DataPack.shuffle g self inplace w = (Ok res, w')
    ∧ res = (if inplace then None else Some t)
    ∧ (if inplace then t = self
       else packs w !! t = None
            ∧ untouched w w'
            ∧ holds w' self relation left right)
    ∧ frames w ⊆ frames w'
    ∧ holds w' t relation' left right
    ∧ columns relation' = columns relation
    ∧ (rows relation').*2 ≡ₚ (rows relation).*2
    ∧ DataPack.__len__ t w' = (Ok (pd.shape0 relation), w')
    ∧ range_index relation'.
Proof.
  intros Hg Hh. unfold DataPack.shuffle. destruct inplace.
  - destruct (wrapped_shuffle_run g _ _ _ _ _ Hh)
      as (w' & Hrun & Hh' & Hf & _).
    exists None, w', self, (shuffled g (rng w) relation).
    rewrite optional_inplace_self, Hrun.
    rewrite (len_run _ _ _ _ _ Hh'), (shuffled_length _ _ _ Hg).
    repeat split; try done.
    + by apply shuffled_rows.
    + apply shuffled_range.
  - destruct (store_tables_run w relation left right)
      as (p & w1 & Hrun1 & Hnew & Hun & _).
    destruct (wrapped_shuffle_run g _ _ _ _ _
                (new_pack_in_holds _ _ _ _ _ _ Hnew))
      as (w' & Hrun & Hh' & Honly).
    exists (Some p), w', p, (shuffled g (rng w1) relation).
    rewrite (optional_inplace_copy _ _ _ _ _ _ _ _ Hh Hrun1), Hrun.
    rewrite (len_run _ _ _ _ _ Hh'), (shuffled_length _ _ _ Hg).
    pose proof Hnew as [Hp _].
    pose proof (only_target_untouched _ _ _ _ Hp Hun Honly) as Hun'.
    repeat split; try done; try apply Hun'.
    + by eapply untouched_holds.
    + by apply shuffled_rows.
    + apply shuffled_range.
Qed.

(** ** The view after the label is dropped *)

Lemma cell_nil p : pd.cell [] p = VNaN.
Proof. by destruct p. Qed.

Lemma dropped_cells cols cells c x :
  c ≠ x →
  match pd.column_position (filter (λ c', c' ≠ x) cols) c with
  | Some p => pd.cell (filter (λ cv, cv.1 ≠ x) (zip cols cells)).*2 p
  | None => VNaN
  end
  = match pd.column_position cols c with
    | Some p => pd.cell cells p
    | None => VNaN
    end.
Proof.
  intros Hc. revert cells.
  induction cols as [|c' cols IH]; intros cells; [done|].
  destruct cells as [|v cells].
  { simpl.
    destruct (pd.column_position (filter _ (c' :: cols)) c);
      destruct (decide (c' = c)); try done;
      destruct (pd.column_position cols c); simpl;
      by rewrite ?cell_nil. }
  simpl zip. destruct (decide (c' = x)) as [->|Hne].
  - rewrite !filter_cons_False by (simpl; tauto).
    rewrite IH. simpl. rewrite decide_False by done.
    by destruct (pd.column_position cols c).
  - rewrite !filter_cons_True by done. simpl.
    destruct (decide (c' = c)); [done|].
    specialize (IH cells).
    destruct (pd.column_position (filter _ cols) c),
      (pd.column_position cols c); simpl in *; done.
Qed.

Lemma column_values_dropped df c x :
  c ≠ x → column_values (dropped df x) c = column_values df c.
Proof.
  intros Hc. unfold column_values, field. simpl.
  rewrite <- list_fmap_compose. apply list_fmap_ext.
  intros _ r _. simpl. by apply dropped_cells.
Qed.

Lemma dropped_index df x : pd.index (dropped df x) = pd.index df.
Proof. unfold pd.index. simpl. by rewrite <- list_fmap_compose. Qed.

Lemma dropped_relation_ok relation :
  relation_ok relation → relation_ok (dropped relation "label").
Proof.
  intros (Hr & Hl & Hrt). split; [|split].
  - unfold range_index in *. rewrite dropped_index, Hr. simpl.
    by rewrite length_fmap.
  - simpl. by apply list_elem_of_filter.
  - simpl. by apply list_elem_of_filter.
Qed.

Lemma dropped_integrity relation left right :
  referential_integrity relation left right →
  referential_integrity (dropped relation "label") left right.
Proof.
  intros [Hl Hr]. split; by rewrite column_values_dropped.
Qed.

Lemma filter_all {A} (P : A → Prop) `{!∀ x, Decision (P x)} (l : list A) :
  Forall P l → filter P l = l.
Proof.
  induction 1 as [|x l Hx _ IH]; [done|].
  by rewrite filter_cons_True, IH.
Qed.

Lemma other_columns_dropped relation x :
  other_columns (dropped relation x)
  = filter (λ c, c ≠ x) (other_columns relation).
Proof.
  unfold other_columns. simpl. rewrite !list_filter_filter.
  apply list_filter_iff. tauto.
Qed.

Lemma label_in_other_columns relation :
  "label" ∈ columns relation → "label" ∈ other_columns relation.
Proof.
  intros Hc. apply list_elem_of_filter. split; [|done].
  unfold is_identifier. rewrite !elem_of_cons, elem_of_nil.
  by intros [|[|]].
Qed.

Lemma joined_columns_dropped relation left right :
  NoDup (joined_columns relation left right) →
  "label" ∈ columns relation →
  joined_columns (dropped relation "label") left right
  = filter (λ c, c ≠ "label") (joined_columns relation left right).
Proof.
  intros Hnd Hc%label_in_other_columns. unfold joined_columns in *.
  rewrite !filter_app, other_columns_dropped.
  apply NoDup_app in Hnd as (_ & Hd1 & Hnd).
  apply NoDup_app in Hnd as (_ & Hd2 & _).
  rewrite (filter_all _ (index_label left :: _)).
  2:{ apply Forall_forall. intros c Hin ->. apply (Hd1 _ Hin).
      apply elem_of_app. by right. }
  rewrite (filter_all _ (index_label right :: _)); [done|].
  apply Forall_forall. intros c Hin ->. by apply (Hd2 _ Hin).
Qed.

Lemma view_call_run w self relation left right :
  holds w self relation left right →
  relation_ok relation →
  unique_keys left → unique_keys right →
  referential_integrity relation left right →
  NoDup (joined_columns relation left right) →
  DataPackFrameView.__call__ (mkView self) w
  = (Ok (joined_frame relation left right), w).
Proof.
  intros Hh Hrel Hul Hur Href Hnd. unfold DataPackFrameView.__call__.
  rewrite (view_getitem_run _ _ _ _ _ _ Hh).
  erewrite slice_spec; [|done..| |].
  - unfold joined_frame. by rewrite selected_seq.
  - apply convert_full_slice.
  - apply valid_positions_seq.
Qed.

(** C4.  A frame view is the reference to its data pack and nothing
    else: creating it leaves the store as it is, and every slice of it,
    also the full one, is the slicer applied to the three tables the data
    pack has in the store at the time of the access, whatever happened
    since the view was made; the access itself changes nothing.  In
    particular, on a data pack with a label column whose full frame is
    defined, after [drop_label(inplace=True)] the full frame of the view
    made before has the same columns but for the label. *)
Theorem view_follows_data_pack w0 w0' self v :
  DataPack.frame self w0 = (Ok v, w0') →
  w0' = w0
  ∧ v = mkView self
  ∧ (∀ w relation left right index,
       holds w self relation left right →
       DataPackFrameView.__getitem__ v index w
       = (slice relation left right index, w)
       ∧ DataPackFrameView.__call__ v w
         = (slice relation left right (ISlice None None None), w))
  ∧ (∀ w relation left right,
       holds w self relation left right →
       relation_ok relation →
       unique_keys left → unique_keys right →
       referential_integrity relation left right →
       NoDup (joined_columns relation left right) →
       "label" ∈ columns relation →
       ∃ F w' F',
         DataPackFrameView.__call__ v w = (Ok F, w)
         ∧ "label" ∈ columns F
         ∧ DataPack.drop_label self true w = (Ok None, w')
         ∧ DataPackFrameView.__call__ v w' = (Ok F', w')
         ∧ ("label" ∉ columns F')
         ∧ columns F' = filter (λ c, c ≠ "label") (columns F)).
Proof.
  intros [= <- <-]. split; [done|]. split; [done|]. split.
  - intros w relation left right index Hh. split.
    + by apply view_getitem_run.
    + unfold DataPackFrameView.__call__. by apply view_getitem_run.
  - intros w relation left right Hh Hrel Hul Hur Href Hnd Hc.
    destruct (wrapped_drop_label_Ok _ _ _ _ _ Hh Hc)
      as (w' & Hrun & Hh' & _).
    exists (joined_frame relation left right), w',
      (joined_frame (dropped relation "label") left right).
    pose proof (joined_columns_dropped _ _ _ Hnd Hc) as Hcols.
    split; [by apply view_call_run|]. split.
    { simpl. unfold joined_columns. rewrite !elem_of_app.
      right. right. by apply label_in_other_columns. }
    split.
    { unfold DataPack.drop_label.
      by rewrite optional_inplace_self, Hrun. }
    split.
    { apply view_call_run; try done.
      - by apply dropped_relation_ok.
      - by apply dropped_integrity.
      - rewrite Hcols. by apply NoDup_filter. }
    split; [|done].
    simpl. rewrite Hcols, list_elem_of_filter. tauto.
Qed.

(** ** Unpacking *)









Lemma column_position_app_r l1 l2 c :
  c ∉ l1 →
  pd.column_position (l1 ++ l2) c
  = (λ p, (length l1 + p)%nat) <$> pd.column_position l2 c.
Proof.
  induction l1 as [|a l1 IH]; intros Hnin; simpl.
  - by destruct (pd.column_position l2 c).
  - apply not_elem_of_cons in Hnin as [Hne Hnin].
    rewrite decide_False by done. rewrite IH by done.
    by destruct (pd.column_position l2 c).
Qed.









(** ** Saving and loading *)

Lemma parent_data_file (dirpath : path) :
  parent (dirpath ++ [DATA_FILENAME]) = dirpath.
Proof. unfold parent. apply removelast_last. Qed.

Lemma data_file_not_dir (dirpath : path) :
  dirpath ++ [DATA_FILENAME] ≠ dirpath.
Proof.
  intros Heq. apply (f_equal length) in Heq.
  rewrite length_app in Heq. simpl in Heq. lia.
Qed.

Lemma node_at_data_file w (dirpath : path) :
  node_at w (dirpath ++ [DATA_FILENAME])
  = fs w !! (dirpath ++ [DATA_FILENAME]).
Proof. by destruct dirpath. Qed.

Lemma node_at_write w p n q :
  q ≠ p →
  node_at (mkWorld (frames w) (packs w) (<[p := n]> (fs w)) (rng w)) q
  = node_at w q.
Proof.
  intros Hne. destruct q; [done|]. simpl. by rewrite lookup_insert_ne.
Qed.

Lemma run_path_exists p w :
  path_exists p w = (Ok (bool_decide (is_Some (node_at w p))), w).
Proof. reflexivity. Qed.

Lemma run_write_node p n w :
  write_node p n w
  = (Ok (), mkWorld (frames w) (packs w) (<[p := n]> (fs w)) (rng w)).
Proof. reflexivity. Qed.

Lemma run_enter_dir w p : node_at w p = Some Dir → enter p w = (Ok (), w).
Proof. intros H. unfold enter. by rewrite H. Qed.

Lemma dill_dump_run w self relation left right file :
  holds w self relation left right →
  dill_dump self file w
  = (Ok (), mkWorld (frames w) (packs w)
              (<[file := File (Pickled relation left right)]> (fs w))
              (rng w)).
Proof.
  intros (d & Hd & Hrel & Hl & Hr). unfold dill_dump. by steps.
Qed.

(** Writing the data file into a directory that is there. *)
Lemma save_into_dir w self relation left right (dirpath : path) :
  holds w self relation left right →
  node_at w dirpath = Some Dir →
  node_at w (dirpath ++ [DATA_FILENAME]) = None →
  (file ← open_wb (dirpath ++ [DATA_FILENAME]); dill_dump self file) w
  = (Ok (), mkWorld (frames w) (packs w)
              (<[dirpath ++ [DATA_FILENAME]
                 := File (Pickled relation left right)]> (fs w))
              (rng w)).
Proof.
  intros Hh Hdir Hfile. rewrite run_bind. unfold open_wb.
  rewrite parent_data_file, (run_enter_dir _ _ Hdir), Hfile.
  rewrite run_write_node. cbv beta iota. simpl snd.
  erewrite dill_dump_run.
  - simpl. by rewrite insert_insert_eq.
  - destruct Hh as (d & ? & ? & ? & ?). by exists d.
Qed.

Lemma save_file_exists w self (dirpath : path) n :
  node_at w (dirpath ++ [DATA_FILENAME]) = Some n →
  DataPack.save self dirpath w = (Raise FileExistsError, w).
Proof.
  intros Hfile. unfold DataPack.save.
  rewrite run_bind, run_path_exists, Hfile. cbv beta iota.
  by rewrite bool_decide_eq_true_2 by (by eexists).
Qed.

Lemma save_existing_dir w self relation left right (dirpath : path) :
  holds w self relation left right →
  node_at w dirpath = Some Dir →
  node_at w (dirpath ++ [DATA_FILENAME]) = None →
  DataPack.save self dirpath w
  = (Ok (), mkWorld (frames w) (packs w)
              (<[dirpath ++ [DATA_FILENAME]
                 := File (Pickled relation left right)]> (fs w))
              (rng w)).
Proof.
  intros Hh Hdir Hfile. unfold DataPack.save.
  rewrite run_bind, run_path_exists, Hfile. cbv beta iota.
  rewrite bool_decide_eq_false_2 by (by intros [? ?]).
  rewrite run_bind, run_bind, run_path_exists, Hdir. cbv beta iota.
  rewrite bool_decide_eq_true_2 by (by eexists). cbn [negb].
  rewrite run_ret. cbv beta iota.
  by apply save_into_dir.
Qed.

Lemma save_missing_dir w self relation left right (dirpath : path) :
  holds w self relation left right →
  node_at w dirpath = None →
  node_at w (dirpath ++ [DATA_FILENAME]) = None →
  node_at w (parent dirpath) = Some Dir →
  DataPack.save self dirpath w
  = (Ok (), mkWorld (frames w) (packs w)
              (<[dirpath ++ [DATA_FILENAME]
                 := File (Pickled relation left right)]>
                 (<[dirpath := Dir]> (fs w)))
              (rng w)).
Proof.
  intros Hh Hdir Hfile Hpar. unfold DataPack.save.
  rewrite run_bind, run_path_exists, Hfile. cbv beta iota.
  rewrite bool_decide_eq_false_2 by (by intros [? ?]).
  rewrite run_bind, run_bind, run_path_exists, Hdir. cbv beta iota.
  rewrite bool_decide_eq_false_2 by (by intros [? ?]). cbn [negb].
  unfold mkdir. rewrite run_bind, (run_enter_dir _ _ Hpar).
  cbv beta iota. rewrite run_bind, run_path_exists, Hdir. cbv beta iota.
  rewrite bool_decide_eq_false_2 by (by intros [? ?]).
  rewrite run_write_node. cbv beta iota.
  assert (dirpath ≠ []) as Hne by (by intros ->).
  rewrite (save_into_dir _ _ relation left right); [done| | |].
  - destruct Hh as (d & ? & ? & ? & ?). by exists d.
  - destruct dirpath; [done|]. simpl. by rewrite lookup_insert_eq.
  - rewrite node_at_write by apply data_file_not_dir. done.
Qed.

(** A save that succeeds had a free file name, inside a directory that
    was there or could be made. *)
Lemma save_Ok_cases w self (dirpath : path) w1 :
  DataPack.save self dirpath w = (Ok (), w1) →
  node_at w (dirpath ++ [DATA_FILENAME]) = None
  ∧ (node_at w dirpath = Some Dir
     ∨ (node_at w dirpath = None ∧ node_at w (parent dirpath) = Some Dir)).
Proof.
  unfold DataPack.save. rewrite run_bind, run_path_exists. cbv beta iota.
  destruct (node_at w (dirpath ++ [DATA_FILENAME])) as [n|] eqn:Hfile.
  { by rewrite bool_decide_eq_true_2 by (by eexists). }
  rewrite bool_decide_eq_false_2 by (by intros [? ?]).
  intros Hrun. split; [done|]. revert Hrun.
  rewrite run_bind, run_bind, run_path_exists. cbv beta iota.
  destruct (node_at w dirpath) as [n|] eqn:Hdir.
  - rewrite bool_decide_eq_true_2 by (by eexists). cbn [negb].
    rewrite run_ret. cbv beta iota. rewrite run_bind. unfold open_wb.
    rewrite parent_data_file. unfold enter. rewrite Hdir.
    destruct n; [by left|done].
  - rewrite bool_decide_eq_false_2 by (by intros [? ?]). cbn [negb].
    unfold mkdir. rewrite run_bind. unfold enter at 1.
    destruct (node_at w (parent dirpath)) as [[|b]|]; [|done..].
    intros _. by right.
Qed.

Lemma new_frames_run {A} w a b c (k : ref → ref → ref → M A) :
  ∃ ra rb rc w3,
    (x ← new_frame a; y ← new_frame b; z ← new_frame c; k x y z) w
    = k ra rb rc w3
    ∧ frames w !! ra = None ∧ frames w !! rb = None ∧ frames w !! rc = None
    ∧ frames w3 !! ra = Some a
    ∧ frames w3 !! rb = Some b
    ∧ frames w3 !! rc = Some c
    ∧ frames w ⊆ frames w3
    ∧ packs w3 = packs w ∧ fs w3 = fs w ∧ rng w3 = rng w.
Proof.
  destruct (new_frame_run w a) as (ra & w1 & Hrun1 & Ha & Hf1 & ? & ? & ?).
  destruct (new_frame_run w1 b) as (rb & w2 & Hrun2 & Hb & Hf2 & ? & ? & ?).
  destruct (new_frame_run w2 c) as (rc & w3 & Hrun3 & Hc & Hf3 & ? & ? & ?).
  exists ra, rb, rc, w3.
  rewrite run_bind, Hrun1. cbv beta iota.
  rewrite run_bind, Hrun2. cbv beta iota.
  rewrite run_bind, Hrun3. cbv beta iota.
  rewrite Hf2, Hf1 in Hc. rewrite Hf1 in Hb.
  apply lookup_insert_None in Hc as [Hc Hne1].
  apply lookup_insert_None in Hc as [Hc Hne2].
  apply lookup_insert_None in Hb as [Hb Hne3].
  rewrite Hf3, Hf2, Hf1.
  repeat split; try done; try congruence.
  - by rewrite lookup_insert_ne, lookup_insert_ne, lookup_insert_eq.
  - by rewrite lookup_insert_ne, lookup_insert_eq.
  - by rewrite lookup_insert_eq.
  - etrans; [|apply insert_subseteq];
      [|by rewrite !lookup_insert_ne by done].
    etrans; [|apply insert_subseteq]; [|by rewrite lookup_insert_ne].
    by apply insert_subseteq.
Qed.

Lemma load_run w (dirpath : path) relation left right :
  node_at w dirpath = Some Dir →
  fs w !! (dirpath ++ [DATA_FILENAME])
  = Some (File (Pickled relation left right)) →
  ∃ p w2, load_data_pack dirpath w = (Ok p, w2)
          ∧ new_pack_in w w2 p relation left right
          ∧ untouched w w2
          ∧ fs w2 = fs w.
Proof.
  intros Hdir Hfile. unfold load_data_pack.
  rewrite run_bind. unfold open_rb.
  rewrite parent_data_file, (run_enter_dir _ _ Hdir).
  rewrite node_at_data_file, Hfile. cbv beta iota. unfold dill_load.
  destruct (new_frames_run w relation left right
              (λ x y z, new_pack (mkDataPack x y z)))
    as (ra & rb & rc & w3 & -> & Ha & Hb & Hc & Ha' & Hb' & Hc'
        & Hsub & Hp & Hfs & ?).
  destruct (new_pack_run w3 (mkDataPack ra rb rc))
    as (p & w4 & -> & Hnone & Hp4 & Hf4 & Hfs4 & ?).
  exists p, w4. split; [done|]. rewrite Hp in Hnone.
  split; [|split].
  - split; [done|]. exists (mkDataPack ra rb rc). simpl.
    rewrite Hp4, Hf4, lookup_insert_eq. by repeat split.
  - split; [by rewrite Hf4|]. rewrite Hp4, Hp. by apply insert_subseteq.
  - congruence.
Qed.

Lemma fs_ok_write w p n :
  fs_ok w →
  node_at w p = None →
  node_at w (parent p) = Some Dir →
  fs_ok (mkWorld (frames w) (packs w) (<[p := n]> (fs w)) (rng w)).
Proof.
  intros Hok Hp Hpar q m. simpl.
  assert (p ≠ []) as Hne by (by intros ->).
  destruct (decide (q = p)) as [->|Hq].
  - intros _. rewrite node_at_write; [done|].
    intros Heq. rewrite <- Heq in Hp. congruence.
  - rewrite lookup_insert_ne by done. intros Hq'.
    pose proof (Hok q m Hq') as Hd.
    rewrite node_at_write; [done|].
    intros Heq. rewrite Heq in Hd. congruence.
Qed.

(** C9, as amended.  When the data file is already in the directory,
    [save] raises [FileExistsError] and the store, so the file, is as it
    was.  When the directory is missing and its parent is a directory,
    [save] makes the directory and writes the three tables to the data
    file in it, changing nothing else.  After any [save] that succeeded,
    [load_data_pack] from the same directory returns a new data pack with
    the three tables that were saved. *)
Theorem save_load_spec w self relation left right (dirpath : path) :
  holds w self relation left right →
  fs_ok w →
  (∀ n, node_at w (dirpath ++ [DATA_FILENAME]) = Some n →
        DataPack.save self dirpath w = (Raise FileExistsError, w))
  ∧ (node_at w dirpath = None →
     node_at w (parent dirpath) = Some Dir →
     ∃ w', DataPack.save self dirpath w = (Ok (), w')
           ∧ node_at w' dirpath = Some Dir
           ∧ node_at w' (dirpath ++ [DATA_FILENAME])
             = Some (File (Pickled relation left right))
           ∧ (∀ q, q ≠ dirpath → q ≠ dirpath ++ [DATA_FILENAME] →
                   node_at w' q = node_at w q)
           ∧ frames w' = frames w ∧ packs w' = packs w
           ∧ fs_ok w')
  ∧ (∀ w1, DataPack.save self dirpath w = (Ok (), w1) →
           ∃ p w2, load_data_pack dirpath w1 = (Ok p, w2)
                   ∧ new_pack_in w1 w2 p relation left right
                   ∧ untouched w1 w2).
Proof.
  intros Hh Hok. split; [|split].
  - intros n Hn. by eapply save_file_exists.
  - intros Hdir Hpar.
    assert (node_at w (dirpath ++ [DATA_FILENAME]) = None) as Hfile.
    { rewrite node_at_data_file.
      destruct (fs w !! (dirpath ++ [DATA_FILENAME])) as [n|] eqn:Hn;
        [|done].
      apply Hok in Hn. rewrite parent_data_file in Hn. congruence. }
    assert (dirpath ≠ []) as Hne by (by intros ->).
    eexists. split; [by apply save_missing_dir|].
    split; [|split; [|split; [|split; [done|split; [done|]]]]].
    + destruct dirpath; [done|]. simpl.
      rewrite lookup_insert_ne by apply (data_file_not_dir (_ :: _)).
      by rewrite lookup_insert_eq.
    + rewrite node_at_data_file. simpl. by rewrite lookup_insert_eq.
    + intros q Hq1 Hq2. destruct q; [done|]. simpl.
      by rewrite !lookup_insert_ne.
    + refine (fs_ok_write
                (mkWorld (frames w) (packs w) (<[dirpath := Dir]> (fs w))
                   (rng w))
                (dirpath ++ [DATA_FILENAME])
                (File (Pickled relation left right)) _ _ _).
      * by apply fs_ok_write.
      * rewrite node_at_write by apply data_file_not_dir. done.
      * rewrite parent_data_file. destruct dirpath; [done|]. simpl.
        by rewrite lookup_insert_eq.
  - intros w1 Hsave.
    destruct (save_Ok_cases _ _ _ _ Hsave) as [Hfile [Hdir|[Hdir Hpar]]].
    + rewrite (save_existing_dir _ _ _ _ _ _ Hh Hdir Hfile) in Hsave.
      injection Hsave as Hw1.
      destruct (load_run w1 dirpath relation left right)
        as (p & w2 & ? & ? & ? & _);
        [rewrite <- Hw1|rewrite <- Hw1|].
      * rewrite node_at_write; [done|].
        intros Heq. symmetry in Heq. by apply data_file_not_dir in Heq.
      * simpl. by rewrite lookup_insert_eq.
      * by exists p, w2.
    + rewrite (save_missing_dir _ _ _ _ _ _ Hh Hdir Hfile Hpar) in Hsave.
      injection Hsave as Hw1.
      assert (dirpath ≠ []) as Hne by (by intros ->).
      destruct (load_run w1 dirpath relation left right)
        as (p & w2 & ? & ? & ? & _);
        [rewrite <- Hw1|rewrite <- Hw1|].
      * destruct dirpath; [done|]. simpl.
        rewrite lookup_insert_ne by apply (data_file_not_dir (_ :: _)).
        by rewrite lookup_insert_eq.
      * simpl. by rewrite lookup_insert_eq.
      * by exists p, w2.
Qed.

(** ** The small data pack, checked *)

(** Closed, decidable facts about the small data pack are settled by
    evaluation. *)
Ltac evaluate :=
  first [ reflexivity
        | apply (bool_decide_unpack _); vm_compute; exact I ].

Lemma toy_holds : holds toy_world 0%nat toy_relation toy_left toy_right.
Proof. exists (mkDataPack 0%nat 1%nat 2%nat). repeat split; evaluate. Qed.

Lemma toy_relation_ok : relation_ok toy_relation.
Proof. unfold relation_ok, range_index. repeat split; evaluate. Qed.

Lemma toy_unique_left : unique_keys toy_left.
Proof. unfold unique_keys. evaluate. Qed.

Lemma toy_unique_right : unique_keys toy_right.
Proof. unfold unique_keys. evaluate. Qed.

Lemma toy_rectangular_left : rectangular toy_left.
Proof. unfold rectangular. evaluate. Qed.

Lemma toy_rectangular_right : rectangular toy_right.
Proof. unfold rectangular. evaluate. Qed.

Lemma toy_integrity : referential_integrity toy_relation toy_left toy_right.
Proof. unfold referential_integrity. split; evaluate. Qed.

Lemma toy_joined_columns :
  NoDup (joined_columns toy_relation toy_left toy_right).
Proof. evaluate. Qed.

Lemma toy_fs_ok : fs_ok toy_world.
Proof.
  intros p n. unfold toy_world. simpl.
  intros [[<- _]|[_ H]]%lookup_insert_Some; [reflexivity|].
  apply lookup_insert_Some in H as [[<- _]|[_ H]]; [reflexivity|].
  by rewrite lookup_empty in H.
Qed.

Lemma backwards_draws : draws_permutations backwards.
Proof. intros state n. simpl. apply reverse_Permutation. Qed.



Lemma getitem_preserves_integrity_toy :
  ∃ p w' relation' left' right',
    DataPack.__getitem__ 0%nat (ISlice (Some 1) None None) toy_world
    = (Ok p, w')
    ∧ holds w' p relation' left' right'
    ∧ referential_integrity relation' left' right'.
Proof.
  assert (DataPack.__getitem__ 0%nat (ISlice (Some 1) None None) toy_world
          = (Ok 1%nat,
             (DataPack.__getitem__ 0%nat (ISlice (Some 1) None None)
                toy_world).2))
    as Hrun by (vm_compute; reflexivity).
  destruct (getitem_preserves_integrity toy_world 0%nat
              toy_relation toy_left toy_right
              (ISlice (Some 1) None None) _ _ toy_holds Hrun)
    as (relation' & left' & right' & Hh & _ & Href & _).
  eexists _, _, relation', left', right'.
  split; [exact Hrun|]. split; [exact Hh|exact Href].
Defined.

(** The view made before the label is dropped shows four columns
    afterwards. *)
Lemma view_follows_data_pack_toy :
  ∃ F w' F',
    DataPackFrameView.__call__ (mkView 0%nat) toy_world = (Ok F, toy_world)
    ∧ DataPack.drop_label 0%nat true toy_world = (Ok None, w')
    ∧ DataPackFrameView.__call__ (mkView 0%nat) w' = (Ok F', w')
    ∧ columns F' = ["id_left"; "text_left"; "id_right"; "text_right"].
Proof.
  destruct (view_follows_data_pack toy_world toy_world 0%nat (mkView 0%nat)
              eq_refl) as (_ & _ & _ & Hdrop).
  destruct (Hdrop toy_world toy_relation toy_left toy_right)
    as (F & w' & F' & HF & _ & Hd & HF' & _ & Hcols).
  - apply toy_holds.
  - apply toy_relation_ok.
  - apply toy_unique_left.
  - apply toy_unique_right.
  - apply toy_integrity.
  - apply toy_joined_columns.
  - evaluate.
  - exists F, w', F'. split; [exact HF|]. split; [exact Hd|].
    split; [exact HF'|]. rewrite Hcols.
    assert (columns F
            = ["id_left"; "text_left"; "id_right"; "text_right"; "label"])
      as ->; [|reflexivity].
    vm_compute in HF. by injection HF as <-.
Defined.


Lemma shuffle_spec_toy :
  ∃ p w' relation',
    DataPack.shuffle backwards 0%nat false toy_world = (Ok (Some p), w')
    ∧ holds w' p relation' toy_left toy_right
    ∧ holds w' 0%nat toy_relation toy_left toy_right
    ∧ (rows relation').*2 ≡ₚ (rows toy_relation).*2.
Proof.
  destruct (shuffle_spec backwards toy_world 0%nat
              toy_relation toy_left toy_right false)
    as (res & w' & p & relation' & Hrun & -> & (_ & _ & Hself)
        & _ & Hh & _ & Hperm & _).
  - apply backwards_draws.
  - apply toy_holds.
  - by exists p, w', relation'.
Defined.

Lemma drop_label_spec_toy :
  ∃ w', DataPack.drop_label 0%nat true toy_world = (Ok None, w')
        ∧ DataPack.has_label 0%nat w' = (Ok false, w')
        ∧ ∃ w'', DataPack.drop_label 0%nat true w'
                 = (Raise KeyError, w'').
Proof.
  destruct (drop_label_spec toy_world 0%nat
              toy_relation toy_left toy_right true toy_holds)
    as [Hlabel _].
  destruct Hlabel
    as (res & w' & t & relation' & Hrun & -> & -> & _ & _ & _ & _
        & Hno & Hagain).
  - evaluate.
  - exists w'. split; [exact Hrun|]. split; [exact Hno|].
    destruct (Hagain true) as (w'' & Hfail & _). by exists w''.
Defined.

Lemma apply_on_text_bad_mode_toy :
  ∃ w', DataPack.apply_on_text 0%nat len "up" None 1 false toy_world
        = (Raise ValueError, w')
        ∧ holds w' 0%nat toy_relation toy_left toy_right.
Proof.
  destruct (apply_on_text_bad_mode toy_world 0%nat
              toy_relation toy_left toy_right len "up" None 1 false)
    as (w' & Hrun & _ & Hh & _).
  - apply toy_holds.
  - discriminate.
  - discriminate.
  - discriminate.
  - by exists w'.
Defined.

Lemma save_load_spec_toy :
  DataPack.save 0%nat ["saved"] toy_world
  = (Raise FileExistsError, toy_world)
  ∧ ∃ w1 p w2,
      DataPack.save 0%nat ["fresh"] toy_world = (Ok (), w1)
      ∧ node_at w1 ["fresh"] = Some Dir
      ∧ load_data_pack ["fresh"] w1 = (Ok p, w2)
      ∧ holds w2 p toy_relation toy_left toy_right.
Proof.
  split.
  - destruct (save_load_spec toy_world 0%nat
                toy_relation toy_left toy_right ["saved"]
                toy_holds toy_fs_ok) as (Hthere & _ & _).
    by apply (Hthere (File (Bytes "old"))).
  - destruct (save_load_spec toy_world 0%nat
                toy_relation toy_left toy_right ["fresh"]
                toy_holds toy_fs_ok) as (_ & Hmake & Hload).
    destruct Hmake as (w1 & Hsave & Hdir & _); [reflexivity..|].
    destruct (Hload w1 Hsave) as (p & w2 & Hrun & Hnew & _).
    exists w1, p, w2. split; [exact Hsave|]. split; [exact Hdir|].
    split; [exact Hrun|]. by eapply new_pack_in_holds.
Defined.

Lemma getitem_negative_integer_toy :
  DataPack.__getitem__ 0%nat (IInt (-1)) toy_world
  = (Raise KeyError, toy_world)
  ∧ _convert_to_list_index (ISlice (Some (-1)) None None) 2 = Ok [1].
Proof.
  destruct (getitem_negative_integer toy_world 0%nat
              toy_relation toy_left toy_right (-1))
    as (Hneg & _ & Hlast).
  - apply toy_holds.
  - apply toy_relation_ok.
  - lia.
  - split; [exact Hneg|]. apply Hlast. reflexivity.
Defined.

(** C9 as stated fails where the parent of the directory is missing too:
    [/missing/pack] is not there, and [save] raises [FileNotFoundError]
    instead of making it. *)
Lemma save_missing_parent :
  holds toy_world 0%nat toy_relation toy_left toy_right
  ∧ fs_ok toy_world
  ∧ node_at toy_world ["missing"; "pack"] = None
  ∧ DataPack.save 0%nat ["missing"; "pack"] toy_world
    = (Raise FileNotFoundError, toy_world)
  ∧ ¬ ∃ w', DataPack.save 0%nat ["missing"; "pack"] toy_world = (Ok (), w')
            ∧ node_at w' ["missing"; "pack"] = Some Dir.
Proof.
  assert (DataPack.save 0%nat ["missing"; "pack"] toy_world
          = (Raise FileNotFoundError, toy_world)) as Hrun
    by (vm_compute; reflexivity).
  split; [apply toy_holds|]. split; [apply toy_fs_ok|].
  split; [reflexivity|]. split; [exact Hrun|].
  intros (w' & Hsave & _). rewrite Hrun in Hsave. discriminate.
Qed.


(** ** Where the default shape is needed *)










(** * Further properties of the module *)

(** ** Results of a function applied down a column *)

Lemma mapM_Ok_inv {A B} (f : A → Res B) l vs :
  mapM f l = Ok vs → Forall2 (λ x v, f x = Ok v) l vs.
Proof.
  revert vs. induction l as [|x l IH]; intros vs; simpl.
  - intros [= <-]. constructor.
  - destruct (f x) as [v|e] eqn:Hx; [|done]. simpl.
    destruct (mapM f l) as [k|e]; [|done]. simpl.
    intros [= <-]. constructor; [done|by apply IH].
Qed.

Lemma mapM_Ok {A B} (f : A → Res B) l vs :
  Forall2 (λ x v, f x = Ok v) l vs → mapM f l = Ok vs.
Proof.
  induction 1 as [|x v l vs Hx _ IH]; [done|].
  simpl. rewrite Hx. simpl. by rewrite IH.
Qed.

Lemma mapM_Ok_length {A B} (f : A → Res B) l vs :
  mapM f l = Ok vs → length vs = length l.
Proof. intros H%mapM_Ok_inv. symmetry. by eapply Forall2_length. Qed.

Lemma mapM_fmap_Ok {A B} (f : A → Res B) (g : A → B) l :
  Forall (λ x, f x = Ok (g x)) l → mapM f l = Ok (g <$> l).
Proof.
  intros H. apply mapM_Ok. induction H; constructor; auto.
Qed.

(** ** Writing a column *)

Lemma fmap_zip_with_left {A B C D} (g : A → B → C) (h : C → D) (k : A → D)
    (l1 : list A) (l2 : list B) :
  length l1 = length l2 →
  Forall (λ a, ∀ b, h (g a b) = k a) l1 →
  h <$> zip_with g l1 l2 = k <$> l1.
Proof.
  intros Hlen Hall. revert l2 Hlen.
  induction Hall as [|a l1 Ha _ IH]; intros [|b l2] Hlen; try done.
  simpl. rewrite Ha. f_equal. apply IH. by injection Hlen.
Qed.

Lemma fmap_zip_with_right {A B C} (g : A → B → C) (h : C → B)
    (l1 : list A) (l2 : list B) :
  length l1 = length l2 →
  Forall (λ a, ∀ b, h (g a b) = b) l1 →
  h <$> zip_with g l1 l2 = l2.
Proof.
  intros Hlen Hall. revert l2 Hlen.
  induction Hall as [|a l1 Ha _ IH]; intros [|b l2] Hlen; try done.
  simpl. rewrite Ha. f_equal. apply IH. by injection Hlen.
Qed.

Lemma setitem_columns df c s :
  columns (pd.setitem df c s)
  = if decide (c ∈ columns df) then columns df else columns df ++ [c].
Proof.
  unfold pd.setitem. destruct (decide (c ∈ columns df)) as [Hc|Hc].
  - by destruct (column_position_Some _ _ Hc) as [p ->].
  - by rewrite column_position_None.
Qed.

Lemma setitem_index df c s :
  length (pd.values s) = length (rows df) →
  pd.index (pd.setitem df c s) = pd.index df.
Proof.
  intros Hlen. unfold pd.index, pd.setitem.
  destruct (pd.column_position (columns df) c); simpl;
    apply fmap_zip_with_left; try done; by apply Forall_forall.
Qed.

Lemma setitem_rectangular df c s :
  rectangular df → rectangular (pd.setitem df c s).
Proof.
  unfold rectangular, pd.setitem. intros Hr.
  destruct (pd.column_position (columns df) c); simpl.
  - apply Forall_forall.
    intros r' (r & v & -> & Hr1 & _)%elem_of_zip_with. simpl.
    rewrite length_insert. rewrite Forall_forall in Hr. by apply Hr.
  - apply Forall_forall.
    intros r' (r & v & -> & Hr1 & _)%elem_of_zip_with. simpl.
    rewrite !length_app. simpl. rewrite Forall_forall in Hr.
    by rewrite (Hr r Hr1).
Qed.

Lemma column_position_lt cols c p :
  pd.column_position cols c = Some p → (p < length cols)%nat.
Proof. intros H%column_position_lookup. by eapply lookup_lt_Some. Qed.

Lemma column_position_app_l l1 l2 c :
  c ∈ l1 → pd.column_position (l1 ++ l2) c = pd.column_position l1 c.
Proof.
  induction l1 as [|a l1 IH]; [by inversion 1|]. simpl.
  destruct (decide (a = c)); [done|].
  intros [?|Hin]%elem_of_cons; [congruence|]. by rewrite IH.
Qed.

(** The column written holds the values assigned. *)
Lemma setitem_values df c s :
  rectangular df →
  length (pd.values s) = length (rows df) →
  column_values (pd.setitem df c s) c = pd.values s.
Proof.
  intros Hr Hlen. unfold rectangular in Hr.
  unfold column_values, field, pd.setitem.
  destruct (pd.column_position (columns df) c) as [p|] eqn:Hp; simpl.
  - rewrite Hp. apply fmap_zip_with_right; [done|].
    eapply Forall_impl; [exact Hr|]. intros r Hrl v. simpl.
    unfold pd.cell. rewrite list_lookup_insert_eq; [done|].
    rewrite Hrl. by eapply column_position_lt.
  - assert (c ∉ columns df) as Hc.
    { intros [q Hq]%column_position_Some. congruence. }
    rewrite (column_position_app_r _ [c]) by done. simpl.
    rewrite decide_True by done. simpl.
    apply fmap_zip_with_right; [done|].
    eapply Forall_impl; [exact Hr|]. intros r Hrl v. simpl.
    rewrite Nat.add_0_r, <- Hrl. unfold pd.cell.
    by rewrite list_lookup_middle.
Qed.

(** Every other column is as it was. *)
Lemma setitem_other df c s c' :
  rectangular df →
  length (pd.values s) = length (rows df) →
  c' ≠ c →
  column_values (pd.setitem df c s) c' = column_values df c'.
Proof.
  intros Hr Hlen Hne. unfold rectangular in Hr.
  unfold column_values, field, pd.setitem.
  destruct (pd.column_position (columns df) c) as [p|] eqn:Hp; simpl.
  - apply fmap_zip_with_left; [done|].
    eapply Forall_impl; [exact Hr|]. intros r Hrl v. simpl.
    destruct (pd.column_position (columns df) c') as [q|] eqn:Hq; [|done].
    unfold pd.cell. rewrite list_lookup_insert_ne; [done|].
    intros ->. apply column_position_lookup in Hp, Hq. congruence.
  - apply fmap_zip_with_left; [done|].
    eapply Forall_impl; [exact Hr|]. intros r Hrl v. simpl.
    destruct (decide (c' ∈ columns df)) as [Hc'|Hc'].
    + rewrite column_position_app_l by done.
      destruct (pd.column_position (columns df) c') as [q|] eqn:Hq; [|done].
      unfold pd.cell. rewrite lookup_app_l; [done|].
      rewrite Hrl. by eapply column_position_lt.
    + rewrite (column_position_app_r _ [c]) by done. simpl.
      rewrite decide_False by done. simpl.
      by rewrite column_position_None.
Qed.

(** Writing the values a column already holds changes nothing. *)
Lemma setitem_same df c s :
  rectangular df →
  c ∈ columns df →
  column_values df c = pd.values s →
  pd.setitem df c s = df.
Proof.
  intros Hr Hc Hvals. unfold pd.setitem.
  destruct (column_position_Some _ _ Hc) as [p Hp]. rewrite Hp.
  destruct df as [n cols rs]. simpl in *. f_equal.
  unfold column_values, field in Hvals. simpl in Hvals.
  rewrite Hp in Hvals. rewrite <- Hvals. unfold rectangular in Hr.
  simpl in Hr. clear Hvals.
  induction Hr as [|r rs Hrl _ IH]; [done|]. simpl. f_equal; [|done].
  destruct r as [l cells]. simpl in *. f_equal.
  apply list_insert_id. unfold pd.cell.
  destruct (lookup_lt_is_Some_2 cells p) as [v ->]; [|done].
  rewrite Hrl. by eapply column_position_lt.
Qed.


(** ** One side of [apply_on_text] *)

Lemma written_values_series df text vs :
  length vs = length (rows df) →
  pd.values (mkSeries text (zip (pd.index df) vs)) = vs.
Proof.
  intros Hlen. unfold pd.values, pd.index. simpl.
  apply snd_zip. rewrite length_fmap. lia.
Qed.

Lemma apply_Ok df text func vs :
  text ∈ columns df →
  mapM func (column_values df text) = Ok vs →
  (s ← pd.getitem df text; pd.apply s func)
  = Ok (mkSeries text (zip (pd.index df) vs)).
Proof.
  intros Hc Hvs. rewrite getitem_Ok by done. rewrite res_bind_Ok.
  unfold pd.apply. rewrite values_series.
  fold (column_values df text). rewrite Hvs, res_bind_Ok. simpl.
  by rewrite <- list_fmap_compose.
Qed.

Lemma apply_Raise df text func e :
  text ∈ columns df →
  mapM func (column_values df text) = Raise e →
  (s ← pd.getitem df text; pd.apply s func) = Raise e.
Proof.
  intros Hc Hvs. rewrite getitem_Ok by done. rewrite res_bind_Ok.
  unfold pd.apply. rewrite values_series.
  fold (column_values df text). by rewrite Hvs.
Qed.

Lemma run_raise {A} e w : (raise e : M A) w = (Raise e, w).
Proof. reflexivity. Qed.

Lemma announce_ok {A} func verbose (k : M A) w :
  speaks func verbose →
  ((if decide (verbose ≠ 0)
    then match __name__ func with
         | Some _ => mret ()
         | None => raise AttributeError
         end
    else mret ()) ≫= λ _ : (), k) w
  = k w.
Proof.
  intros Hs. rewrite run_bind.
  destruct (decide (verbose ≠ 0)) as [Hv|Hv]; [|done].
  destruct Hs as [?|[n Hn]]; [done|]. by rewrite Hn.
Qed.

Lemma announce_fail {A} func verbose (k : M A) w :
  verbose ≠ 0 → __name__ func = None →
  ((if decide (verbose ≠ 0)
    then match __name__ func with
         | Some _ => mret ()
         | None => raise AttributeError
         end
    else mret ()) ≫= λ _ : (), k) w
  = (Raise AttributeError, w).
Proof.
  intros Hv Hn. rewrite run_bind, decide_True by done. by rewrite Hn.
Qed.

Lemma apply_left_run w self d left func rename verbose vs :
  packs w !! self = Some d →
  frames w !! _left d = Some left →
  "text_left" ∈ columns left →
  speaks func verbose →
  mapM (call func) (column_values left "text_left") = Ok vs →
  DataPack._apply_on_text_left self func rename verbose w
  = (Ok (), with_frame w (_left d)
              (written left "text_left" (target_name rename "text_left") vs)).
Proof.
  intros Hd Hl Hc Hs Hvs. unfold DataPack._apply_on_text_left.
  rewrite announce_ok by done. steps.
  rewrite (apply_Ok _ _ _ _ Hc Hvs). by steps.
Qed.

Lemma apply_right_run w self d right func rename verbose vs :
  packs w !! self = Some d →
  frames w !! _right d = Some right →
  "text_right" ∈ columns right →
  speaks func verbose →
  mapM (call func) (column_values right "text_right") = Ok vs →
  DataPack._apply_on_text_right self func rename verbose w
  = (Ok (), with_frame w (_right d)
              (written right "text_right"
                 (target_name rename "text_right") vs)).
Proof.
  intros Hd Hl Hc Hs Hvs. unfold DataPack._apply_on_text_right.
  rewrite announce_ok by done. steps.
  rewrite (apply_Ok _ _ _ _ Hc Hvs). by steps.
Qed.

Lemma apply_left_raise w self d left func rename verbose e :
  packs w !! self = Some d →
  frames w !! _left d = Some left →
  "text_left" ∈ columns left →
  speaks func verbose →
  mapM (call func) (column_values left "text_left") = Raise e →
  DataPack._apply_on_text_left self func rename verbose w = (Raise e, w).
Proof.
  intros Hd Hl Hc Hs Hvs. unfold DataPack._apply_on_text_left.
  rewrite announce_ok by done. steps.
  by rewrite (apply_Raise _ _ _ _ Hc Hvs).
Qed.

Lemma apply_right_raise w self d right func rename verbose e :
  packs w !! self = Some d →
  frames w !! _right d = Some right →
  "text_right" ∈ columns right →
  speaks func verbose →
  mapM (call func) (column_values right "text_right") = Raise e →
  DataPack._apply_on_text_right self func rename verbose w = (Raise e, w).
Proof.
  intros Hd Hl Hc Hs Hvs. unfold DataPack._apply_on_text_right.
  rewrite announce_ok by done. steps.
  by rewrite (apply_Raise _ _ _ _ Hc Hvs).
Qed.

(** ** What a transformation can touch *)

Lemma differ_at_refl w rs : differ_at w w rs.
Proof. by repeat split. Qed.

Lemma differ_at_with_frame w r df rs :
  r ∈ rs → differ_at w (with_frame w r df) rs.
Proof.
  intros Hr. repeat split. intros x Hx. simpl.
  rewrite lookup_insert_ne; [done|]. by intros ->.
Qed.

Lemma differ_at_trans w1 w2 w3 rs :
  differ_at w1 w2 rs → differ_at w2 w3 rs → differ_at w1 w3 rs.
Proof.
  intros (? & ? & ? & H12) (? & ? & ? & H23).
  repeat split; try congruence. intros x Hx.
  by rewrite H23, H12.
Qed.

Lemma differ_at_weaken w w' rs rs' :
  rs ⊆ rs' → differ_at w w' rs → differ_at w w' rs'.
Proof.
  intros Hsub (? & ? & ? & H). repeat split; try done.
  intros x Hx. apply H. intros Hin. by apply Hx, Hsub.
Qed.

Lemma apply_left_differ w self d func rename verbose r w' :
  packs w !! self = Some d →
  DataPack._apply_on_text_left self func rename verbose w = (r, w') →
  differ_at w w' [_left d].
Proof.
  intros Hd. unfold DataPack._apply_on_text_left. rewrite run_bind.
  destruct (decide (verbose ≠ 0)) as [Hv|Hv].
  - destruct (__name__ func) as [n|].
    + rewrite run_ret. cbv beta iota. steps. unfold get_frame.
      destruct (frames w !! _left d) as [left|];
        [|intros [= <- <-]; apply differ_at_refl].
      cbv beta iota. steps.
      destruct (text ← pd.getitem left "text_left"; _) as [s|e];
        [|intros [= <- <-]; apply differ_at_refl].
      steps. rewrite run_set_frame. intros [= <- <-].
      apply differ_at_with_frame. by left.
    + rewrite run_raise. intros [= <- <-]. apply differ_at_refl.
  - rewrite run_ret. cbv beta iota. steps. unfold get_frame.
    destruct (frames w !! _left d) as [left|];
      [|intros [= <- <-]; apply differ_at_refl].
    cbv beta iota. steps.
    destruct (text ← pd.getitem left "text_left"; _) as [s|e];
      [|intros [= <- <-]; apply differ_at_refl].
    steps. rewrite run_set_frame. intros [= <- <-].
    apply differ_at_with_frame. by left.
Qed.

Lemma apply_right_differ w self d func rename verbose r w' :
  packs w !! self = Some d →
  DataPack._apply_on_text_right self func rename verbose w = (r, w') →
  differ_at w w' [_right d].
Proof.
  intros Hd. unfold DataPack._apply_on_text_right. rewrite run_bind.
  destruct (decide (verbose ≠ 0)) as [Hv|Hv].
  - destruct (__name__ func) as [n|].
    + rewrite run_ret. cbv beta iota. steps. unfold get_frame.
      destruct (frames w !! _right d) as [right|];
        [|intros [= <- <-]; apply differ_at_refl].
      cbv beta iota. steps.
      destruct (text ← pd.getitem right "text_right"; _) as [s|e];
        [|intros [= <- <-]; apply differ_at_refl].
      steps. rewrite run_set_frame. intros [= <- <-].
      apply differ_at_with_frame. by left.
    + rewrite run_raise. intros [= <- <-]. apply differ_at_refl.
  - rewrite run_ret. cbv beta iota. steps. unfold get_frame.
    destruct (frames w !! _right d) as [right|];
      [|intros [= <- <-]; apply differ_at_refl].
    cbv beta iota. steps.
    destruct (text ← pd.getitem right "text_right"; _) as [s|e];
      [|intros [= <- <-]; apply differ_at_refl].
    steps. rewrite run_set_frame. intros [= <- <-].
    apply differ_at_with_frame. by left.
Qed.

Lemma pair_sub_l {A} (a b : A) : [a] ⊆ [a; b].
Proof. intros x ->%list_elem_of_singleton. left. Qed.

Lemma pair_sub_r {A} (a b : A) : [b] ⊆ [a; b].
Proof. intros x ->%list_elem_of_singleton. right. left. Qed.

Lemma wrapped_apply_on_text_differ func mode rename verbose t w d r w' :
  packs w !! t = Some d →
  DataPack.wrapped.apply_on_text func mode rename verbose t w = (r, w') →
  differ_at w w' [_left d; _right d].
Proof.
  intros Hd. unfold DataPack.wrapped.apply_on_text.
  destruct (decide (mode = "both")) as [_|_].
  - unfold DataPack._apply_on_text_both. steps.
    destruct (DataPack.unpack_names rename) as [[ln rn]|e];
      [|intros [= <- <-]; apply differ_at_refl].
    cbv beta iota. rewrite run_bind.
    destruct (DataPack._apply_on_text_left t func (Some ln) verbose w)
      as [[[]|e] w1] eqn:Hleft.
    + pose proof (apply_left_differ _ _ _ _ _ _ _ _ Hd Hleft) as H1.
      intros Hright. pose proof H1 as (Hp & _).
      rewrite <- Hp in Hd.
      pose proof (apply_right_differ _ _ _ _ _ _ _ _ Hd Hright) as H2.
      eapply differ_at_trans.
      * eapply differ_at_weaken; [apply pair_sub_l|exact H1].
      * eapply differ_at_weaken; [apply pair_sub_r|exact H2].
    + intros [= <- <-].
      eapply differ_at_weaken;
        [apply pair_sub_l
        |exact (apply_left_differ _ _ _ _ _ _ _ _ Hd Hleft)].
  - destruct (decide (mode = "left")) as [_|_].
    + steps. destruct (DataPack.one_name rename) as [name|e];
        [|intros [= <- <-]; apply differ_at_refl].
      cbv beta iota. intros Hleft.
      eapply differ_at_weaken;
        [apply pair_sub_l
        |exact (apply_left_differ _ _ _ _ _ _ _ _ Hd Hleft)].
    + destruct (decide (mode = "right")) as [_|_].
      * steps. destruct (DataPack.one_name rename) as [name|e];
          [|intros [= <- <-]; apply differ_at_refl].
        cbv beta iota. intros Hright.
        eapply differ_at_weaken;
          [apply pair_sub_r
          |exact (apply_right_differ _ _ _ _ _ _ _ _ Hd Hright)].
      * rewrite run_raise. intros [= <- <-]. apply differ_at_refl.
Qed.

(** A store that differs from [w1] only in the frames of a data pack made
    after [w] still has every object of [w] as it was. *)
Lemma differ_at_new_untouched w w1 w' p relation left right d :
  new_pack_in w w1 p relation left right →
  untouched w w1 →
  packs w1 !! p = Some d →
  differ_at w1 w' [_left d; _right d] →
  untouched w w'.
Proof.
  intros (_ & d' & Hd' & _ & Hl & Hr & _) [Hf Hp] Hd (Hpk & _ & _ & Hfr).
  assert (d' = d) as -> by congruence.
  split; [|by rewrite Hpk].
  apply map_subseteq_spec. intros x df Hx. rewrite Hfr.
  - by eapply lookup_weaken.
  - rewrite !elem_of_cons, elem_of_nil. intros [->|[->|[]]]; congruence.
Qed.

(** ** The frame a transformation leaves *)

Lemma column_values_length df c :
  length (column_values df c) = length (rows df).
Proof. unfold column_values. by rewrite length_fmap. Qed.

Lemma results_length {B} (func : Value → Res B) df text vs :
  mapM func (column_values df text) = Ok vs →
  length vs = length (rows df).
Proof.
  intros H%mapM_Ok_length. by rewrite H, column_values_length.
Qed.

Lemma written_spec df text name vs :
  rectangular df →
  length vs = length (rows df) →
  pd.index (written df text name vs) = pd.index df
  ∧ columns (written df text name vs)
    = (if decide (name ∈ columns df) then columns df
       else columns df ++ [name])
  ∧ column_values (written df text name vs) name = vs
  ∧ (∀ c, c ≠ name →
       column_values (written df text name vs) c = column_values df c)
  ∧ rectangular (written df text name vs).
Proof.
  intros Hr Hlen. unfold written.
  pose proof (written_values_series df text vs Hlen) as Hvals.
  assert (length (pd.values (mkSeries text (zip (pd.index df) vs)))
          = length (rows df)) as Hl by (by rewrite Hvals).
  split; [by apply setitem_index|].
  split; [apply setitem_columns|].
  split; [by rewrite setitem_values|].
  split; [intros c Hc; by apply setitem_other|].
  by apply setitem_rectangular.
Qed.

(** X1.  [apply_on_text] on the left side, in place.  When the left
    table has its text column and the function succeeds on every text,
    the call returns nothing and the store changes in one place only: the
    left frame object of the receiver now holds the results under the
    target name, in a column added last or, if the name was a column
    already, in that column.  Keys, row order and every other column of
    the left table are as they were. *)
Theorem apply_on_text_left_inplace
    w self d left func (rename : option string) verbose vs :
  packs w !! self = Some d →
  frames w !! _left d = Some left →
  rectangular left →
  "text_left" ∈ columns left →
  speaks func verbose →
  mapM (call func) (column_values left "text_left") = Ok vs →
  let name := target_name rename "text_left" in
  let left' := written left "text_left" name vs in
  DataPack.apply_on_text self func "left" (RStr <$> rename) verbose true w
  = (Ok None, with_frame w (_left d) left')
  ∧ pd.index left' = pd.index left
  ∧ columns left'
    = (if decide (name ∈ columns left) then columns left
       else columns left ++ [name])
  ∧ column_values left' name = vs
  ∧ (∀ c, c ≠ name → column_values left' c = column_values left c)
  ∧ rectangular left'.
Proof.
  intros Hd Hl Hr Hc Hs Hvs name left'. split.
  - unfold DataPack.apply_on_text. rewrite optional_inplace_self.
    unfold DataPack.wrapped.apply_on_text.
    rewrite decide_False by done. rewrite decide_True by done.
    assert (DataPack.one_name (RStr <$> rename) = Ok rename) as Hn
      by (by destruct rename).
    rewrite run_bind, run_lift, Hn. cbv beta iota.
    by rewrite (apply_left_run _ _ _ _ _ _ _ _ Hd Hl Hc Hs Hvs).
  - apply written_spec; [done|]. by eapply results_length.
Qed.

(** X2.  [apply_on_text] on the right side, in place.  When the right
    table has its text column and the function succeeds on every text,
    the call returns nothing and the store changes in one place only: the
    right frame object of the receiver now holds the results under the
    target name, in a column added last or, if the name was a column
    already, in that column.  Keys, row order and every other column of
    the right table are as they were. *)
Theorem apply_on_text_right_inplace
    w self d right func (rename : option string) verbose vs :
  packs w !! self = Some d →
  frames w !! _right d = Some right →
  rectangular right →
  "text_right" ∈ columns right →
  speaks func verbose →
  mapM (call func) (column_values right "text_right") = Ok vs →
  let name := target_name rename "text_right" in
  let right' := written right "text_right" name vs in
  DataPack.apply_on_text self func "right" (RStr <$> rename) verbose true w
  = (Ok None, with_frame w (_right d) right')
  ∧ pd.index right' = pd.index right
  ∧ columns right'
    = (if decide (name ∈ columns right) then columns right
       else columns right ++ [name])
  ∧ column_values right' name = vs
  ∧ (∀ c, c ≠ name → column_values right' c = column_values right c)
  ∧ rectangular right'.
Proof.
  intros Hd Hl Hr Hc Hs Hvs name right'. split.
  - unfold DataPack.apply_on_text. rewrite optional_inplace_self.
    unfold DataPack.wrapped.apply_on_text.
    rewrite !decide_False by done. rewrite decide_True by done.
    assert (DataPack.one_name (RStr <$> rename) = Ok rename) as Hn
      by (by destruct rename).
    rewrite run_bind, run_lift, Hn. cbv beta iota.
    by rewrite (apply_right_run _ _ _ _ _ _ _ _ Hd Hl Hc Hs Hvs).
  - apply written_spec; [done|]. by eapply results_length.
Qed.

(** X3.  With [inplace] false, [apply_on_text] changes nothing that was
    in the store, whatever the mode, the function and the outcome: it
    returns a data pack that was not there before, or raises. *)
Theorem apply_on_text_copy_untouched
    w self relation left right func mode rename verbose r w' :
  holds w self relation left right →
  DataPack.apply_on_text self func mode rename verbose false w = (r, w') →
  untouched w w'
  ∧ holds w' self relation left right
  ∧ match r with
    | Ok res => ∃ p, res = Some p ∧ packs w !! p = None
    | Raise _ => True
    end.
Proof.
  intros Hh. unfold DataPack.apply_on_text.
  destruct (store_tables_run w relation left right)
    as (p & w1 & Hrun & Hnew & Hun & _).
  rewrite (optional_inplace_copy _ _ _ _ _ _ _ _ Hh Hrun).
  destruct (DataPack.wrapped.apply_on_text func mode rename verbose p w1)
    as [r2 w2] eqn:Hw.
  pose proof Hnew as (Hp & d & Hd & _).
  pose proof (wrapped_apply_on_text_differ _ _ _ _ _ _ _ _ _ Hd Hw) as Hdiff.
  pose proof (differ_at_new_untouched _ _ _ _ _ _ _ _ Hnew Hun Hd Hdiff)
    as Hun'.
  destruct r2 as [[]|e]; intros [= <- <-].
  - split; [done|]. split; [by eapply untouched_holds|]. by exists p.
  - split; [done|]. split; [by eapply untouched_holds|done].
Qed.

(** ** Both sides *)

Lemma with_frame_lookup w r df : frames (with_frame w r df) !! r = Some df.
Proof. simpl. by rewrite lookup_insert_eq. Qed.

Lemma with_frame_lookup_ne w r df x :
  x ≠ r → frames (with_frame w r df) !! x = frames w !! x.
Proof. intros Hne. simpl. by rewrite lookup_insert_ne. Qed.

Lemma with_frame_same w r df : frames w !! r = Some df → with_frame w r df = w.
Proof.
  intros H. unfold with_frame. rewrite insert_id by done. by destruct w.
Qed.

Lemma wrapped_both_run w self d left right func rename verbose
    left_name right_name vsl vsr :
  packs w !! self = Some d →
  frames w !! _left d = Some left →
  frames w !! _right d = Some right →
  _left d ≠ _right d →
  "text_left" ∈ columns left → "text_right" ∈ columns right →
  speaks func verbose →
  DataPack.unpack_names rename = Ok (left_name, right_name) →
  mapM (call func) (column_values left "text_left") = Ok vsl →
  mapM (call func) (column_values right "text_right") = Ok vsr →
  DataPack.wrapped.apply_on_text func "both" rename verbose self w
  = (Ok (),
     with_frame
       (with_frame w (_left d)
          (written left "text_left" (str_or left_name "text_left") vsl))
       (_right d)
       (written right "text_right" (str_or right_name "text_right") vsr)).
Proof.
  intros Hd Hl Hr Hne Hcl Hcr Hs Hn Hvl Hvr.
  unfold DataPack.wrapped.apply_on_text. rewrite decide_True by done.
  unfold DataPack._apply_on_text_both.
  rewrite run_bind, run_lift, Hn. cbv beta iota.
  rewrite run_bind.
  rewrite (apply_left_run _ _ _ _ _ _ _ _ Hd Hl Hcl Hs Hvl).
  cbv beta iota.
  rewrite (apply_right_run _ _ d right _ _ _ vsr); try done.
  by rewrite with_frame_lookup_ne.
Qed.

Lemma wrapped_both_right_raise w self d left right func rename verbose
    left_name right_name vsl e :
  packs w !! self = Some d →
  frames w !! _left d = Some left →
  frames w !! _right d = Some right →
  _left d ≠ _right d →
  "text_left" ∈ columns left → "text_right" ∈ columns right →
  speaks func verbose →
  DataPack.unpack_names rename = Ok (left_name, right_name) →
  mapM (call func) (column_values left "text_left") = Ok vsl →
  mapM (call func) (column_values right "text_right") = Raise e →
  DataPack.wrapped.apply_on_text func "both" rename verbose self w
  = (Raise e,
     with_frame w (_left d)
       (written left "text_left" (str_or left_name "text_left") vsl)).
Proof.
  intros Hd Hl Hr Hne Hcl Hcr Hs Hn Hvl Hvr.
  unfold DataPack.wrapped.apply_on_text. rewrite decide_True by done.
  unfold DataPack._apply_on_text_both.
  rewrite run_bind, run_lift, Hn. cbv beta iota.
  rewrite run_bind.
  rewrite (apply_left_run _ _ _ _ _ _ _ _ Hd Hl Hcl Hs Hvl).
  cbv beta iota.
  rewrite (apply_right_raise _ _ d right _ _ _ e); try done.
  by rewrite with_frame_lookup_ne.
Qed.

(** X4.  "both" is the left side, then the right side, not one step.
    When the function succeeds on every left text and raises on a right
    text, the in-place call raises that exception after the left table
    has received its column; the right table is as it was. *)
Theorem apply_on_text_both_partial
    w self d left right func rename verbose left_name right_name vsl e :
  packs w !! self = Some d →
  frames w !! _left d = Some left →
  frames w !! _right d = Some right →
  _left d ≠ _right d →
  rectangular left →
  "text_left" ∈ columns left → "text_right" ∈ columns right →
  speaks func verbose →
  DataPack.unpack_names rename = Ok (left_name, right_name) →
  mapM (call func) (column_values left "text_left") = Ok vsl →
  mapM (call func) (column_values right "text_right") = Raise e →
  ∃ w' left',
    DataPack.apply_on_text self func "both" rename verbose true w
    = (Raise e, w')
    ∧ frames w' !! _left d = Some left'
    ∧ column_values left' (str_or left_name "text_left") = vsl
    ∧ frames w' !! _right d = Some right
    ∧ packs w' = packs w.
Proof.
  intros Hd Hl Hr Hne Hrl Hcl Hcr Hs Hn Hvl Hvr.
  do 2 eexists. split.
  { unfold DataPack.apply_on_text. rewrite optional_inplace_self.
    by erewrite wrapped_both_right_raise. }
  split; [apply with_frame_lookup|]. split.
  { apply written_spec; [done|]. by eapply results_length. }
  split; [|done]. rewrite with_frame_lookup_ne by done. done.
Qed.

(** ** Text lengths *)

Lemma len_texts vals :
  Forall is_text vals → mapM (call len) vals = Ok (text_length <$> vals).
Proof.
  intros H. apply mapM_fmap_Ok. eapply Forall_impl; [exact H|].
  by intros [z|s|] Hv.
Qed.

Lemma append_text_length_run t w :
  DataPack.append_text_length t true w
  = match DataPack.wrapped.apply_on_text len "both"
            (Some (RPair "length_left" "length_right")) 1 t w with
    | (Ok _, w') => (Ok None, w')
    | (Raise e, w') => (Raise e, w')
    end.
Proof.
  unfold DataPack.append_text_length. rewrite optional_inplace_self.
  rewrite run_bind. unfold DataPack.apply_on_text.
  rewrite optional_inplace_self.
  by destruct (DataPack.wrapped.apply_on_text _ _ _ _ _ _) as [[[]|e] w'].
Qed.

(** X5.  [append_text_length] in place.  On a data pack whose text
    cells are strings it returns nothing and leaves, in the left and right
    frame objects of the receiver, a column [length_left] and a column
    [length_right] holding the length of each text; the text columns, the
    keys and the data pack's references are as they were. *)
Theorem append_text_length_inplace w self d left right :
  packs w !! self = Some d →
  frames w !! _left d = Some left →
  frames w !! _right d = Some right →
  _left d ≠ _right d →
  rectangular left → rectangular right →
  "text_left" ∈ columns left → "text_right" ∈ columns right →
  Forall is_text (column_values left "text_left") →
  Forall is_text (column_values right "text_right") →
  ∃ w' left' right',
    DataPack.append_text_length self true w = (Ok None, w')
    ∧ packs w' = packs w
    ∧ frames w' !! _left d = Some left'
    ∧ frames w' !! _right d = Some right'
    ∧ column_values left' "length_left"
      = text_length <$> column_values left "text_left"
    ∧ column_values right' "length_right"
      = text_length <$> column_values right "text_right"
    ∧ column_values left' "text_left" = column_values left "text_left"
    ∧ column_values right' "text_right" = column_values right "text_right"
    ∧ pd.index left' = pd.index left
    ∧ pd.index right' = pd.index right.
Proof.
  intros Hd Hl Hr Hne Hrl Hrr Hcl Hcr Htl Htr.
  pose proof (len_texts _ Htl) as Hvl. pose proof (len_texts _ Htr) as Hvr.
  do 3 eexists. split.
  { rewrite append_text_length_run.
    erewrite (wrapped_both_run _ _ d left right len _ 1
                "length_left" "length_right"); try done.
    right. by eexists. }
  split; [done|].
  split; [rewrite with_frame_lookup_ne by done; apply with_frame_lookup|].
  split; [apply with_frame_lookup|].
  destruct (written_spec left "text_left" "length_left"
              (text_length <$> column_values left "text_left") Hrl)
    as (Hil & _ & Hvl' & Hol & _).
  { by rewrite length_fmap, column_values_length. }
  destruct (written_spec right "text_right" "length_right"
              (text_length <$> column_values right "text_right") Hrr)
    as (Hir & _ & Hvr' & Hor & _).
  { by rewrite length_fmap, column_values_length. }
  split; [exact Hvl'|]. split; [exact Hvr'|].
  split; [by apply Hol|]. split; [by apply Hor|]. by split.
Qed.

(** X6.  [append_text_length] in place is idempotent: a second call
    recomputes the same lengths into the same columns and leaves the
    store exactly as the first call left it. *)
Theorem append_text_length_twice w self d left right :
  packs w !! self = Some d →
  frames w !! _left d = Some left →
  frames w !! _right d = Some right →
  _left d ≠ _right d →
  rectangular left → rectangular right →
  "text_left" ∈ columns left → "text_right" ∈ columns right →
  Forall is_text (column_values left "text_left") →
  Forall is_text (column_values right "text_right") →
  ∃ w', DataPack.append_text_length self true w = (Ok None, w')
        ∧ DataPack.append_text_length self true w' = (Ok None, w').
Proof.
  intros Hd Hl Hr Hne Hrl Hrr Hcl Hcr Htl Htr.
  pose proof (len_texts _ Htl) as Hvl. pose proof (len_texts _ Htr) as Hvr.
  set (vsl := text_length <$> column_values left "text_left") in *.
  set (vsr := text_length <$> column_values right "text_right") in *.
  set (left' := written left "text_left" "length_left" vsl).
  set (right' := written right "text_right" "length_right" vsr).
  destruct (written_spec left "text_left" "length_left" vsl Hrl)
    as (Hil & Hcl' & Hvl' & Hol & Hrl').
  { unfold vsl. by rewrite length_fmap, column_values_length. }
  destruct (written_spec right "text_right" "length_right" vsr Hrr)
    as (Hir & Hcr' & Hvr' & Hor & Hrr').
  { unfold vsr. by rewrite length_fmap, column_values_length. }
  fold left' in Hil, Hcl', Hvl', Hol, Hrl'.
  fold right' in Hir, Hcr', Hvr', Hor, Hrr'.
  assert (∀ df name c, c ∈ columns df →
            c ∈ (if decide (name ∈ columns df) then columns df
                 else columns df ++ [name])) as Hkeep.
  { intros df name c Hc. destruct (decide (name ∈ columns df)); [done|].
    apply elem_of_app. by left. }
  assert (∀ df name,
            name ∈ (if decide (name ∈ columns df) then columns df
                    else columns df ++ [name])) as Hnew.
  { intros df name. destruct (decide (name ∈ columns df)); [done|].
    apply elem_of_app. right. left. }
  exists (with_frame (with_frame w (_left d) left') (_right d) right').
  assert (speaks len 1) as Hs by (right; by eexists).
  split.
  { rewrite append_text_length_run.
    by erewrite (wrapped_both_run _ _ d left right len _ 1
                   "length_left" "length_right"). }
  rewrite append_text_length_run.
  erewrite (wrapped_both_run _ _ d left' right' len _ 1
              "length_left" "length_right" vsl vsr); try done.
  - change (str_or "length_left" "text_left") with "length_left".
    change (str_or "length_right" "text_right") with "length_right".
    assert (written left' "text_left" "length_left" vsl = left') as ->.
    { apply setitem_same; [done|rewrite Hcl'; apply Hnew|].
      rewrite written_values_series; [done|].
      unfold vsl. rewrite length_fmap, column_values_length.
      apply (f_equal length) in Hil. unfold pd.index in Hil.
      by rewrite !length_fmap in Hil. }
    assert (written right' "text_right" "length_right" vsr = right') as ->.
    { apply setitem_same; [done|rewrite Hcr'; apply Hnew|].
      rewrite written_values_series; [done|].
      unfold vsr. rewrite length_fmap, column_values_length.
      apply (f_equal length) in Hir. unfold pd.index in Hir.
      by rewrite !length_fmap in Hir. }
    rewrite (with_frame_same _ (_left d) left').
    + by rewrite with_frame_same by apply with_frame_lookup.
    + rewrite with_frame_lookup_ne by done. apply with_frame_lookup.
  - rewrite with_frame_lookup_ne by done. apply with_frame_lookup.
  - apply with_frame_lookup.
  - rewrite Hcl'. by apply Hkeep.
  - rewrite Hcr'. by apply Hkeep.
  - rewrite Hol by done. exact Hvl.
  - rewrite Hor by done. exact Hvr.
Qed.


(** ** Arguments that are refused *)

(** X7.  The progress message is composed before anything is read or
    written.  A verbose call (the default) with a callable that has no
    [__name__] raises [AttributeError] in each of the three modes, given a
    [rename] of the shape the mode takes, and leaves the store as it
    is. *)
Theorem apply_on_text_nameless w self func mode rename verbose :
  known_mode mode →
  rename_fits mode rename →
  verbose ≠ 0 →
  __name__ func = None →
  DataPack.apply_on_text self func mode rename verbose true w
  = (Raise AttributeError, w).
Proof.
  intros Hmode Hfit Hv Hn. unfold DataPack.apply_on_text.
  rewrite optional_inplace_self. unfold DataPack.wrapped.apply_on_text.
  unfold rename_fits in Hfit.
  destruct (decide (mode = "both")) as [->|Hb].
  - destruct Hfit as [[ln rn] Hfit].
    unfold DataPack._apply_on_text_both.
    rewrite run_bind, run_lift, Hfit. cbv beta iota. rewrite run_bind.
    unfold DataPack._apply_on_text_left at 1.
    by rewrite announce_fail.
  - destruct Hfit as [name Hfit].
    destruct Hmode as [?|[->| ->]]; [done| |].
    + rewrite decide_True by done.
      rewrite run_bind, run_lift, Hfit. cbv beta iota.
      unfold DataPack._apply_on_text_left. by rewrite announce_fail.
    + rewrite decide_False by done. rewrite decide_True by done.
      rewrite run_bind, run_lift, Hfit. cbv beta iota.
      unfold DataPack._apply_on_text_right. by rewrite announce_fail.
Qed.

(** Only the empty text has no code point. *)
Lemma code_points_nil s : code_points s = [] → s = "".
Proof.
  destruct s as [|a s]; [done|]. unfold code_points. simpl.
  destruct (code_points_from s) as [tail points].
  by destruct (continuation a).
Qed.

(** X8.  In "both" mode [rename] is taken apart as a pair.  A single
    string is taken apart into its code points: unless it is empty or has
    exactly two code points the call raises [ValueError] before anything
    is written, and a string of two code points names the two columns by
    them. *)
Theorem apply_on_text_both_string w self func verbose s :
  (s ≠ "" → length (code_points s) ≠ 2%nat →
   DataPack.apply_on_text self func "both" (Some (RStr s)) verbose true w
   = (Raise ValueError, w))
  ∧ (∀ a b,
       code_points s = [a; b] →
       DataPack.apply_on_text self func "both" (Some (RStr s)) verbose true w
       = DataPack.apply_on_text self func "both"
           (Some (RPair a b)) verbose true w).
Proof.
  split.
  - intros Hne Hlen. unfold DataPack.apply_on_text.
    rewrite optional_inplace_self. unfold DataPack.wrapped.apply_on_text.
    rewrite decide_True by done. unfold DataPack._apply_on_text_both.
    rewrite run_bind, run_lift. unfold DataPack.unpack_names.
    destruct (code_points s) as [|a [|b [|c l]]] eqn:Hs; try done.
    by apply code_points_nil in Hs.
  - intros a b Hs. unfold DataPack.apply_on_text.
    rewrite !optional_inplace_self.
    unfold DataPack.wrapped.apply_on_text.
    rewrite !decide_True by done. unfold DataPack._apply_on_text_both.
    rewrite !run_bind, !run_lift. unfold DataPack.unpack_names.
    by rewrite Hs.
Qed.

(** ** Copies and shared frames *)

(** X9.  [copy] returns a data pack that was not in the store, over
    frames that were not in the store, with the same three tables; and
    whatever is then applied in place to the original, in any mode and
    with any outcome, the copy keeps the tables it was made with. *)
Theorem copy_independent w self relation left right :
  holds w self relation left right →
  ∃ p w1,
    DataPack.copy self w = (Ok p, w1)
    ∧ new_pack_in w w1 p relation left right
    ∧ untouched w w1
    ∧ ∀ func mode rename verbose r w',
        DataPack.apply_on_text self func mode rename verbose true w1
        = (r, w') →
        holds w' p relation left right.
Proof.
  intros Hh.
  destruct (store_tables_run w relation left right)
    as (p & w1 & Hrun & Hnew & Hun & _).
  exists p, w1. rewrite (copy_run _ _ _ _ _ Hh).
  split; [done|]. split; [done|]. split; [done|].
  intros func mode rename verbose r w'.
  unfold DataPack.apply_on_text. rewrite optional_inplace_self.
  destruct (DataPack.wrapped.apply_on_text func mode rename verbose self w1)
    as [r2 w2] eqn:Hw.
  destruct Hh as (d & Hd & Hrel & Hl & Hr).
  pose proof Hun as [Hf Hp].
  pose proof (lookup_weaken _ _ _ _ Hd Hp) as Hd1.
  pose proof (wrapped_apply_on_text_differ _ _ _ _ _ _ _ _ _ Hd1 Hw)
    as (Hpk & _ & _ & Hfr).
  destruct Hnew as (_ & dp & Hdp & Hn1 & Hn2 & Hn3 & Hc1 & Hc2 & Hc3).
  assert (∀ x df, frames w !! x = None → frames w1 !! x = Some df →
            frames w2 !! x = Some df) as Hkeep.
  { intros x df Hnone Hsome. rewrite Hfr; [done|].
    rewrite !elem_of_cons, elem_of_nil.
    intros [->|[->|[]]]; congruence. }
  intros Heq. assert (w' = w2) as ->.
  { by destruct r2 as [[]|]; injection Heq. }
  exists dp. rewrite Hpk. split; [done|]. repeat split; by apply Hkeep.
Qed.

Lemma run_new_pack d w :
  new_pack d w
  = (Ok (fresh (dom (packs w))),
     mkWorld (frames w) (<[fresh (dom (packs w)) := d]> (packs w))
             (fs w) (rng w)).
Proof. reflexivity. Qed.

(** X10.  The constructor does not copy.  Two data packs built over the
    same left frame share it: after [apply_on_text] in place through the
    first, the left table read through the second holds the new column
    too. *)
Theorem init_shares_frames
    w relation l r left func (rename : option string) verbose vs :
  frames w !! l = Some left →
  "text_left" ∈ columns left →
  speaks func verbose →
  mapM (call func) (column_values left "text_left") = Ok vs →
  ∃ w',
    (first ← DataPack.__init__ relation l r;
     second ← DataPack.__init__ relation l r;
     DataPack.apply_on_text first func "left" (RStr <$> rename) verbose true;;
     shared ← DataPack.left second;
     get_frame shared) w
    = (Ok (written left "text_left" (target_name rename "text_left") vs), w').
Proof.
  intros Hl Hc Hs Hvs. unfold DataPack.__init__.
  rewrite run_bind, run_new_pack. cbv beta iota.
  rewrite run_bind, run_new_pack. cbv beta iota.
  set (d := mkDataPack relation l r).
  set (p1 := fresh (dom (packs w))).
  set (w1 := mkWorld (frames w) (<[p1 := d]> (packs w)) (fs w) (rng w)).
  set (p2 := fresh (dom (packs w1))).
  set (w2 := mkWorld (frames w1) (<[p2 := d]> (packs w1)) (fs w1) (rng w1)).
  assert (p2 ≠ p1) as Hne.
  { intros Heq. pose proof (fresh_pack_None w1) as Hnone. fold p2 in Hnone.
    rewrite Heq in Hnone. simpl in Hnone.
    by rewrite lookup_insert_eq in Hnone. }
  assert (packs w2 !! p1 = Some d) as Hp1.
  { simpl. rewrite lookup_insert_ne by done. by rewrite lookup_insert_eq. }
  assert (packs w2 !! p2 = Some d) as Hp2.
  { simpl. by rewrite lookup_insert_eq. }
  rewrite run_bind. unfold DataPack.apply_on_text.
  rewrite optional_inplace_self. unfold DataPack.wrapped.apply_on_text.
  rewrite decide_False by done. rewrite decide_True by done.
  assert (DataPack.one_name (RStr <$> rename) = Ok rename) as Hn
    by (by destruct rename).
  rewrite run_bind, run_lift, Hn. cbv beta iota.
  rewrite (apply_left_run w2 p1 d left _ _ _ vs); try done.
  cbv beta iota. unfold DataPack.left.
  rewrite run_bind, run_bind.
  rewrite (run_get_pack _ _ d) by done. cbv beta iota.
  rewrite run_ret. cbv beta iota.
  eexists. apply run_get_frame. simpl. by rewrite lookup_insert_eq.
Qed.

Lemma only_target_holds t w w' q a b c :
  only_target t w w' → q ≠ t →
  holds w q a b c → holds w' q a b c.
Proof.
  intros [Hf Hp] Hq (d & Hd & ? & ? & ?). exists d.
  rewrite Hp by done. repeat split; try done; by eapply lookup_weaken.
Qed.

(** X11.  [drop_label] and [shuffle] in place give the receiver a new
    relation frame and write into no frame that was there.  Whatever the
    outcome, every frame object of the store is as it was, and every
    other data pack, also one built over the same relation frame, has the
    tables it had. *)
Theorem inplace_rebinds_relation w self relation left right g r w' :
  holds w self relation left right →
  DataPack.drop_label self true w = (r, w')
  ∨ DataPack.shuffle g self true w = (r, w') →
  frames w ⊆ frames w'
  ∧ ∀ q a b c, q ≠ self → holds w q a b c → holds w' q a b c.
Proof.
  intros Hh Hrun.
  assert (only_target self w w') as Honly.
  { destruct Hrun as [Hrun|Hrun].
    - unfold DataPack.drop_label in Hrun.
      rewrite optional_inplace_self in Hrun.
      destruct (decide ("label" ∈ columns relation)) as [Hc|Hc].
      + destruct (wrapped_drop_label_Ok _ _ _ _ _ Hh Hc)
          as (w2 & Hw & _ & Ho).
        rewrite Hw in Hrun. by injection Hrun as _ <-.
      + rewrite (wrapped_drop_label_Raise _ _ _ _ _ Hh Hc) in Hrun.
        injection Hrun as _ <-. by split.
    - unfold DataPack.shuffle in Hrun.
      rewrite optional_inplace_self in Hrun.
      destruct (wrapped_shuffle_run g _ _ _ _ _ Hh) as (w2 & Hw & _ & Ho).
      rewrite Hw in Hrun. by injection Hrun as _ <-. }
  split; [apply Honly|].
  intros q a b c Hq. by apply (only_target_holds self w).
Qed.

(** ** Positions and identifiers that are not there *)

Lemma take_labels_invalid {A} (rs : list (Value * A)) idx :
  rs.*1 = range_labels (length rs) →
  ¬ valid_positions (length rs) idx →
  pd.take_labels rs (VInt <$> idx) = Raise KeyError.
Proof.
  intros Hidx Hinv. unfold pd.take_labels. rewrite decide_False; [done|].
  intros Hall. apply Hinv. rewrite Forall_fmap in Hall.
  eapply Forall_impl; [exact Hall|]. intros i. simpl.
  rewrite Hidx, elem_of_range_labels. intros (k & [= ->] & Hk). lia.
Qed.

Lemma loc_missing df ids :
  ¬ Forall (λ id, id ∈ pd.index df) ids → pd.loc df ids = Raise KeyError.
Proof.
  intros H. unfold pd.loc, pd.take_labels. by rewrite decide_False.
Qed.

Lemma loc_raises_KeyError df ids e :
  pd.loc df ids = Raise e → e = KeyError.
Proof.
  unfold pd.loc, pd.take_labels.
  destruct (decide _); [done|]. by intros [= <-].
Qed.

Lemma getitem_missing df c :
  c ∉ columns df → pd.getitem df c = Raise KeyError.
Proof.
  intros Hc%column_position_None. unfold pd.getitem. by rewrite Hc.
Qed.

Lemma series_getitem_invalid df c idx :
  range_index df →
  ¬ valid_positions (length (rows df)) idx →
  pd.series_getitem (mkSeries c ((λ r, (r.1, field df r c)) <$> rows df)) idx
  = Raise KeyError.
Proof.
  intros Hr Hinv. unfold pd.series_getitem. simpl.
  rewrite take_labels_invalid; [done| |by rewrite length_fmap].
  rewrite length_fmap, <- list_fmap_compose. exact Hr.
Qed.

(** X12.  A position outside the table is a lookup error.  On a relation
    with the default index, an integer or an array with a position below
    zero or not below the length makes both [DataPack.__getitem__] and
    the slicer of the frame view raise [KeyError]; the store is as it
    was. *)
Theorem getitem_out_of_range w self relation left right index idx :
  holds w self relation left right →
  range_index relation →
  _convert_to_list_index index (pd.shape0 relation) = Ok idx →
  ¬ valid_positions (length (rows relation)) idx →
  DataPack.__getitem__ self index w = (Raise KeyError, w)
  ∧ DataPackFrameView.__getitem__ (mkView self) index w
    = (Raise KeyError, w).
Proof.
  intros Hh Hr Hconv Hinv. split.
  - rewrite (getitem_run _ _ _ _ _ _ Hh). unfold select_tables.
    rewrite Hconv, res_bind_Ok. unfold pd.loc.
    by rewrite take_labels_invalid.
  - rewrite (view_getitem_run _ _ _ _ _ _ Hh). unfold slice.
    rewrite Hconv, res_bind_Ok.
    destruct (decide ("id_left" ∈ columns relation)) as [Hc|Hc].
    + rewrite (getitem_Ok relation "id_left") by done.
      rewrite res_bind_Ok. by rewrite series_getitem_invalid.
    + by rewrite (getitem_missing relation "id_left").
Qed.

Lemma select_relation_Ok relation idx :
  range_index relation →
  valid_positions (length (rows relation)) idx →
  pd.reset_index_drop <$> pd.loc relation (VInt <$> idx)
  = Ok (selected_relation relation idx).
Proof.
  intros Hr Hv. rewrite loc_range by done.
  by rewrite res_fmap_Ok, reset_index_drop_numbered.
Qed.

(** X13.  An identifier without an entity is a lookup error.  When a
    selected relation row names a left or a right identifier that is no
    key of its table, [DataPack.__getitem__] raises [KeyError]; when it
    names such a left identifier, so does the slicer of the frame view.
    The store is as it was. *)
Theorem getitem_dangling_identifier w self relation left right index idx :
  holds w self relation left right →
  relation_ok relation →
  _convert_to_list_index index (pd.shape0 relation) = Ok idx →
  valid_positions (length (rows relation)) idx →
  (Exists (λ r, field relation r "id_left" ∉ pd.index left
                ∨ field relation r "id_right" ∉ pd.index right)
     (selected relation idx) →
   DataPack.__getitem__ self index w = (Raise KeyError, w))
  ∧ (Exists (λ r, field relation r "id_left" ∉ pd.index left)
       (selected relation idx) →
     DataPackFrameView.__getitem__ (mkView self) index w
     = (Raise KeyError, w)).
Proof.
  intros Hh (Hr & Hidl & Hidr) Hconv Hv. split.
  - intros Hex. rewrite (getitem_run _ _ _ _ _ _ Hh). unfold select_tables.
    rewrite Hconv, res_bind_Ok, select_relation_Ok by done.
    rewrite res_bind_Ok.
    assert (∀ table c,
              c ∈ columns relation →
              (ids ← pd.getitem (selected_relation relation idx) c;
               pd.loc table (pd.unique ids))
              = pd.loc table
                  (pd.unique_from []
                     ((λ r, field relation r c) <$> selected relation idx)))
      as Hside.
    { intros table c Hc. rewrite getitem_Ok by done. rewrite res_bind_Ok.
      unfold pd.unique. rewrite values_series.
      fold (column_values (selected_relation relation idx) c).
      by rewrite column_values_selected_relation. }
    rewrite !Hside by done.
    assert (∀ table c,
              Exists (λ r, field relation r c ∉ pd.index table)
                (selected relation idx) →
              pd.loc table
                (pd.unique_from []
                   ((λ r, field relation r c) <$> selected relation idx))
              = Raise KeyError) as Hfail.
    { intros table c (r & Hin & Hmiss)%Exists_exists.
      apply loc_missing. rewrite Forall_forall. intros Hall.
      apply Hmiss, Hall, elem_of_unique_from.
      split; [|apply not_elem_of_nil].
      by apply (list_elem_of_fmap_2 (λ r, field relation r c)). }
    destruct (pd.loc left _) as [left'|e] eqn:Hleft.
    + rewrite res_bind_Ok.
      rewrite Hfail; [done|].
      apply Exists_exists in Hex as (r & Hin & [Hm|Hm]).
      * rewrite Hfail in Hleft; [done|]. apply Exists_exists. eauto.
      * apply Exists_exists. eauto.
    + by rewrite (loc_raises_KeyError _ _ _ Hleft).
  - intros (r & Hin & Hmiss)%Exists_exists.
    rewrite (view_getitem_run _ _ _ _ _ _ Hh). unfold slice.
    rewrite Hconv, res_bind_Ok.
    rewrite (getitem_Ok relation "id_left") by done. rewrite res_bind_Ok.
    rewrite series_getitem_Ok by done. rewrite res_bind_Ok.
    rewrite values_series. rewrite loc_missing; [done|].
    rewrite Forall_forall. intros Hall. apply Hmiss, Hall.
    by apply (list_elem_of_fmap_2 (λ r, field relation r "id_left")).
Qed.

(** ** Slices never miss *)




(** ** The frame of a selection *)







(** ** More on saving and loading *)

(** What a save that succeeded has left in the store. *)
Lemma save_Ok_written w self relation left right (dirpath : path) w1 :
  holds w self relation left right →
  DataPack.save self dirpath w = (Ok (), w1) →
  node_at w1 dirpath = Some Dir
  ∧ fs w1 !! (dirpath ++ [DATA_FILENAME])
    = Some (File (Pickled relation left right))
  ∧ frames w1 = frames w ∧ packs w1 = packs w ∧ rng w1 = rng w.
Proof.
  intros Hh Hsave.
  destruct (save_Ok_cases _ _ _ _ Hsave) as [Hfile [Hdir|[Hdir Hpar]]].
  - rewrite (save_existing_dir _ _ _ _ _ _ Hh Hdir Hfile) in Hsave.
    injection Hsave as <-. split.
    + rewrite node_at_write; [done|].
      intros Heq. symmetry in Heq. by apply data_file_not_dir in Heq.
    + simpl. by rewrite lookup_insert_eq.
  - rewrite (save_missing_dir _ _ _ _ _ _ Hh Hdir Hfile Hpar) in Hsave.
    injection Hsave as <-.
    assert (dirpath ≠ []) as Hne by (by intros ->). split.
    + destruct dirpath; [done|]. simpl.
      rewrite lookup_insert_ne by apply (data_file_not_dir (_ :: _)).
      by rewrite lookup_insert_eq.
    + simpl. by rewrite lookup_insert_eq.
Qed.

(** X16.  Saving into a directory that is already there, and holds no
    data file yet, succeeds without making anything but the data file:
    the file holds the three tables, every other path is as it was, and
    neither the frames nor the data packs of the store change. *)
Theorem save_existing_directory w self relation left right (dirpath : path) :
  holds w self relation left right →
  node_at w dirpath = Some Dir →
  node_at w (dirpath ++ [DATA_FILENAME]) = None →
  ∃ w', DataPack.save self dirpath w = (Ok (), w')
        ∧ node_at w' (dirpath ++ [DATA_FILENAME])
          = Some (File (Pickled relation left right))
        ∧ (∀ q, q ≠ dirpath ++ [DATA_FILENAME] →
                node_at w' q = node_at w q)
        ∧ frames w' = frames w ∧ packs w' = packs w ∧ rng w' = rng w.
Proof.
  intros Hh Hdir Hfile. eexists.
  split; [by apply save_existing_dir|].
  split; [|split; [|done]].
  - rewrite node_at_data_file. simpl. by rewrite lookup_insert_eq.
  - intros q Hq. by apply node_at_write.
Qed.

(** The walk stops for one of two reasons. *)
Lemma walk_error_cases w here rest :
  walk_error w here rest = NotADirectoryError
  ∨ walk_error w here rest = FileNotFoundError.
Proof.
  revert here. induction rest as [|name rest IH]; intros here; simpl.
  - by right.
  - destruct (node_at w here) as [[|b]|]; [apply IH|by left|by right].
Qed.

(** A walk stopped by a regular file met that file before its end. *)
Lemma walk_error_file w here rest :
  walk_error w here rest = NotADirectoryError →
  ∃ q b, q `prefix_of` here ++ rest ∧ node_at w q = Some (File b).
Proof.
  revert here. induction rest as [|name rest IH]; intros here; simpl.
  - done.
  - destruct (node_at w here) as [[|b]|] eqn:Hhere; [|intros _|done].
    + intros (q & b & Hq & Hb)%IH. exists q, b.
      by rewrite <- app_assoc in Hq.
    + exists here, b. split; [by apply prefix_app_r|done].
Qed.

(** A walk that comes to a regular file below directories, with names
    still to follow, is stopped by it. *)
Lemma walk_error_at_file w here mid rest b :
  (∀ q, q `prefix_of` here ++ mid → q ≠ here ++ mid →
        here `prefix_of` q → node_at w q = Some Dir) →
  node_at w (here ++ mid) = Some (File b) →
  rest ≠ [] →
  walk_error w here (mid ++ rest) = NotADirectoryError.
Proof.
  revert here. induction mid as [|m mid IH]; intros here Hdirs Hfile Hrest.
  - rewrite app_nil_r in Hfile. destruct rest as [|name rest]; [done|].
    simpl. by rewrite Hfile.
  - simpl. rewrite Hdirs.
    + apply IH; [|by rewrite <- app_assoc|done].
      intros q Hq Hne Hpre. rewrite <- app_assoc in Hq, Hne.
      apply Hdirs; [done..|].
      etrans; [|exact Hpre]. by apply prefix_app_r.
    + by apply prefix_app_r.
    + intros Heq. apply (f_equal length) in Heq.
      rewrite length_app in Heq. simpl in Heq. lia.
    + done.
Qed.

(** In a file system every path that exists lies below directories. *)
Lemma fs_ok_ancestors w q n :
  fs_ok w → node_at w q = Some n →
  ∀ q', q' `prefix_of` q → q' ≠ q → node_at w q' = Some Dir.
Proof.
  intros Hok. revert n. induction q as [|x q IH] using rev_ind; intros n Hq.
  - intros q' [k Hk] Hne. symmetry in Hk.
    apply app_eq_nil in Hk as [-> _]. done.
  - assert (node_at w q = Some Dir) as Hpar.
    { assert (fs w !! (q ++ [x]) = Some n) as Hfs.
      { by destruct q. }
      apply Hok in Hfs. unfold parent in Hfs.
      by rewrite removelast_last in Hfs. }
    intros q' [k Hk] Hne.
    destruct k as [|y k] using rev_ind.
    { rewrite app_nil_r in Hk. congruence. }
    clear IHk. rewrite app_assoc in Hk.
    apply app_inj_tail in Hk as [Hq' _].
    destruct (decide (q' = q)) as [->|Hne']; [done|].
    apply (IH Dir Hpar); [|done]. by exists k.
Qed.

Lemma parent_snoc (p : path) : p ≠ [] → ∃ x, p = parent p ++ [x].
Proof.
  intros Hne. exists (List.last p ""). unfold parent.
  by apply app_removelast_last.
Qed.

(** X17.  In a file system, a save that fails changes nothing, and fails
    for one of three reasons: the data file is there ([FileExistsError]);
    a regular file stands on the way to the directory, or is the
    directory itself ([NotADirectoryError]); or no regular file stands on
    the way and the directory and its parent are both missing
    ([FileNotFoundError]). *)
Theorem save_failure w self relation left right (dirpath : path) e w' :
  holds w self relation left right →
  fs_ok w →
  DataPack.save self dirpath w = (Raise e, w') →
  w' = w
  ∧ ((e = FileExistsError
      ∧ is_Some (node_at w (dirpath ++ [DATA_FILENAME])))
     ∨ (e = NotADirectoryError
        ∧ node_at w (dirpath ++ [DATA_FILENAME]) = None
        ∧ ∃ q b, q `prefix_of` dirpath ∧ node_at w q = Some (File b))
     ∨ (e = FileNotFoundError
        ∧ node_at w (dirpath ++ [DATA_FILENAME]) = None
        ∧ node_at w dirpath = None
        ∧ node_at w (parent dirpath) = None
        ∧ ∀ q b, q `prefix_of` dirpath → node_at w q ≠ Some (File b))).
Proof.
  intros Hh Hok.
  destruct (node_at w (dirpath ++ [DATA_FILENAME])) as [n|] eqn:Hfile.
  { rewrite (save_file_exists _ _ _ _ Hfile). intros [= <- <-].
    split; [done|]. left. by split; [|eexists]. }
  destruct (node_at w dirpath) as [[|b]|] eqn:Hdir.
  - by rewrite (save_existing_dir _ _ _ _ _ _ Hh Hdir Hfile).
  - unfold DataPack.save.
    rewrite run_bind, run_path_exists, Hfile. cbv beta iota.
    rewrite bool_decide_eq_false_2 by (by intros [? ?]).
    rewrite run_bind, run_bind, run_path_exists, Hdir. cbv beta iota.
    rewrite bool_decide_eq_true_2 by (by eexists). cbn [negb].
    rewrite run_ret. cbv beta iota. rewrite run_bind. unfold open_wb.
    rewrite parent_data_file. unfold enter. rewrite Hdir.
    intros [= <- <-]. split; [done|]. right. left.
    split; [done|]. split; [done|]. by exists dirpath, b.
  - assert (dirpath ≠ []) as Hne by (by intros ->).
    destruct (parent_snoc dirpath Hne) as [x Hx].
    destruct (node_at w (parent dirpath)) as [[|b]|] eqn:Hpar.
    + by rewrite (save_missing_dir _ _ _ _ _ _ Hh Hdir Hfile Hpar).
    + unfold DataPack.save.
      rewrite run_bind, run_path_exists, Hfile. cbv beta iota.
      rewrite bool_decide_eq_false_2 by (by intros [? ?]).
      rewrite run_bind, run_bind, run_path_exists, Hdir. cbv beta iota.
      rewrite bool_decide_eq_false_2 by (by intros [? ?]). cbn [negb].
      unfold mkdir. rewrite run_bind. unfold enter. rewrite Hpar.
      intros [= <- <-]. split; [done|]. right. left.
      split; [done|]. split; [done|]. exists (parent dirpath), b.
      split; [|done]. rewrite Hx at 2. by apply prefix_app_r.
    + unfold DataPack.save.
      rewrite run_bind, run_path_exists, Hfile. cbv beta iota.
      rewrite bool_decide_eq_false_2 by (by intros [? ?]).
      rewrite run_bind, run_bind, run_path_exists, Hdir. cbv beta iota.
      rewrite bool_decide_eq_false_2 by (by intros [? ?]). cbn [negb].
      unfold mkdir. rewrite run_bind. unfold enter. rewrite Hpar.
      intros [= <- <-]. split; [done|]. right.
      destruct (walk_error_cases w [] (parent dirpath)) as [Hw|Hw];
        rewrite Hw.
      * left. split; [done|]. split; [done|].
        apply walk_error_file in Hw as (q & b & Hq & Hb).
        exists q, b. split; [|done]. simpl in Hq.
        etrans; [exact Hq|]. rewrite Hx at 2. by apply prefix_app_r.
      * right. split; [done|]. split; [done|]. split; [done|].
        split; [done|]. intros q b [k Hk] Hb.
        assert (∃ k', parent dirpath = q ++ k' ∧ k' ≠ []) as (k' & Hk' & ?).
        { destruct k as [|y k] using rev_ind.
          { rewrite app_nil_r in Hk. congruence. }
          clear IHk. rewrite Hx, app_assoc in Hk.
          apply app_inj_tail in Hk as [Hq' _].
          exists k. split; [done|]. intros ->.
          rewrite app_nil_r in Hq'. congruence. }
        rewrite Hk' in Hw.
        rewrite (walk_error_at_file w [] q k' b) in Hw; [done| |done..].
        intros q' Hq' Hneq _. by eapply fs_ok_ancestors.
Qed.

(** X18.  [save] never overwrites.  After a save that succeeded, saving
    any data pack to the same directory raises [FileExistsError] and
    leaves the store, so the file saved first, as it was. *)
Theorem save_twice w self relation left right (dirpath : path) w1 other :
  holds w self relation left right →
  DataPack.save self dirpath w = (Ok (), w1) →
  DataPack.save other dirpath w1 = (Raise FileExistsError, w1)
  ∧ node_at w1 (dirpath ++ [DATA_FILENAME])
    = Some (File (Pickled relation left right)).
Proof.
  intros Hh Hsave.
  destruct (save_Ok_written _ _ _ _ _ _ _ Hh Hsave) as (_ & Hfile & _).
  rewrite <- node_at_data_file in Hfile.
  split; [by eapply save_file_exists|done].
Qed.

(** X19.  What is saved is a snapshot.  After a save that succeeded,
    whatever [apply_on_text] then does in place to the data pack that was
    saved, in any mode and with any outcome, [load_data_pack] from the
    directory returns a new data pack with the three tables as they were
    when they were saved. *)
Theorem saved_snapshot
    w self relation left right (dirpath : path) w1
    func mode rename verbose r w2 :
  holds w self relation left right →
  DataPack.save self dirpath w = (Ok (), w1) →
  DataPack.apply_on_text self func mode rename verbose true w1 = (r, w2) →
  ∃ p w3, load_data_pack dirpath w2 = (Ok p, w3)
          ∧ new_pack_in w2 w3 p relation left right
          ∧ untouched w2 w3.
Proof.
  intros Hh Hsave Happly.
  destruct (save_Ok_written _ _ _ _ _ _ _ Hh Hsave)
    as (Hdir & Hfile & _ & Hp & _).
  destruct Hh as (d & Hd & _).
  unfold DataPack.apply_on_text in Happly.
  rewrite optional_inplace_self in Happly.
  destruct (DataPack.wrapped.apply_on_text func mode rename verbose self w1)
    as [r1 w1'] eqn:Hw.
  rewrite <- Hp in Hd.
  pose proof (wrapped_apply_on_text_differ _ _ _ _ _ _ _ _ _ Hd Hw)
    as (_ & Hfs & _).
  assert (w2 = w1') as ->.
  { by destruct r1 as [[]|]; injection Happly. }
  destruct (load_run w1' dirpath relation left right)
    as (p & w3 & ? & ? & ? & _).
  - destruct dirpath; [done|]. simpl in *. by rewrite Hfs.
  - by rewrite Hfs.
  - by exists p, w3.
Qed.

(** ** Shuffling under the frame view *)




(** ** Dropping the label under the frame view *)








(** ** Unpacking without the label *)



(** ** The further properties on the small data pack *)

Lemma apply_on_text_left_inplace_toy :
  ∃ w',
    DataPack.apply_on_text 0%nat len "left" (Some (RStr "length_left")) 0
      true toy_world
    = (Ok None, w')
    ∧ frames w' !! 1%nat
      = Some (mkFrame (Some "id_left") ["text_left"; "length_left"]
                [(VStr "qid1", [VStr "query 1"; VInt 7]);
                 (VStr "qid2", [VStr "query 2"; VInt 7])]).
Proof.
  destruct (apply_on_text_left_inplace toy_world 0%nat
              (mkDataPack 0%nat 1%nat 2%nat) toy_left len
              (Some "length_left") 0 [VInt 7; VInt 7])
    as [Hrun _].
  - reflexivity.
  - reflexivity.
  - apply toy_rectangular_left.
  - evaluate.
  - by left.
  - reflexivity.
  - eexists. split; [exact Hrun|]. reflexivity.
Defined.

Lemma apply_on_text_right_inplace_toy :
  ∃ w',
    DataPack.apply_on_text 0%nat len "right" None 0 true toy_world
    = (Ok None, w')
    ∧ frames w' !! 2%nat
      = Some (mkFrame (Some "id_right") ["text_right"]
                [(VStr "did1", [VInt 10]); (VStr "did2", [VInt 10])]).
Proof.
  destruct (apply_on_text_right_inplace toy_world 0%nat
              (mkDataPack 0%nat 1%nat 2%nat) toy_right len
              None 0 [VInt 10; VInt 10])
    as [Hrun _].
  - reflexivity.
  - reflexivity.
  - apply toy_rectangular_right.
  - evaluate.
  - by left.
  - reflexivity.
  - eexists. split; [exact Hrun|]. reflexivity.
Defined.

Lemma apply_on_text_copy_untouched_toy :
  ∃ p w',
    DataPack.apply_on_text 0%nat len "both" None 0 false toy_world
    = (Ok (Some p), w')
    ∧ packs toy_world !! p = None
    ∧ holds w' 0%nat toy_relation toy_left toy_right.
Proof.
  assert (DataPack.apply_on_text 0%nat len "both" None 0 false toy_world
          = (Ok (Some 1%nat),
             (DataPack.apply_on_text 0%nat len "both" None 0 false
                toy_world).2)) as Hrun
    by (vm_compute; reflexivity).
  destruct (apply_on_text_copy_untouched toy_world 0%nat
              toy_relation toy_left toy_right len "both" None 0
              _ _ toy_holds Hrun)
    as (_ & Hh & p & [= <-] & Hp).
  eexists _, _. split; [exact Hrun|]. split; [exact Hp|exact Hh].
Defined.

Lemma apply_on_text_both_partial_toy :
  ∃ w' left',
    DataPack.apply_on_text 0%nat len "both"
      (Some (RPair "length_left" "length_right")) 0 true
      (with_frame toy_world 2%nat toy_right_nan)
    = (Raise TypeError, w')
    ∧ frames w' !! 1%nat = Some left'
    ∧ column_values left' "length_left" = [VInt 7; VInt 7]
    ∧ frames w' !! 2%nat = Some toy_right_nan.
Proof.
  destruct (apply_on_text_both_partial
              (with_frame toy_world 2%nat toy_right_nan) 0%nat
              (mkDataPack 0%nat 1%nat 2%nat) toy_left toy_right_nan len
              (Some (RPair "length_left" "length_right")) 0
              "length_left" "length_right" [VInt 7; VInt 7] TypeError)
    as (w' & left' & Hrun & Hl & Hvs & Hr & _).
  - reflexivity.
  - reflexivity.
  - reflexivity.
  - discriminate.
  - apply toy_rectangular_left.
  - evaluate.
  - evaluate.
  - by left.
  - reflexivity.
  - reflexivity.
  - reflexivity.
  - by exists w', left'.
Defined.

Lemma append_text_length_inplace_toy :
  (∃ w' left' right',
     DataPack.append_text_length 0%nat true toy_world = (Ok None, w')
     ∧ frames w' !! 1%nat = Some left'
     ∧ frames w' !! 2%nat = Some right'
     ∧ column_values left' "length_left" = [VInt 7; VInt 7]
     ∧ column_values right' "length_right" = [VInt 10; VInt 10])
  ∧ ∃ w' left',
      DataPack.append_text_length 0%nat true
        (with_frame toy_world 1%nat toy_left_accent)
      = (Ok None, w')
      ∧ frames w' !! 1%nat = Some left'
      ∧ column_values left' "text_left" = [VStr "café"; VStr "query 2"]
      ∧ column_values left' "length_left" = [VInt 4; VInt 7].
Proof.
  split.
  - destruct (append_text_length_inplace toy_world 0%nat
                (mkDataPack 0%nat 1%nat 2%nat) toy_left toy_right)
      as (w' & left' & right' & Hrun & _ & Hl & Hr & Hll & Hlr & _).
    + reflexivity.
    + reflexivity.
    + reflexivity.
    + discriminate.
    + apply toy_rectangular_left.
    + apply toy_rectangular_right.
    + evaluate.
    + evaluate.
    + evaluate.
    + evaluate.
    + by exists w', left', right'.
  - destruct (append_text_length_inplace
                (with_frame toy_world 1%nat toy_left_accent) 0%nat
                (mkDataPack 0%nat 1%nat 2%nat) toy_left_accent toy_right)
      as (w' & left' & right' & Hrun & _ & Hl & _ & Hll & _ & Htl & _).
    + reflexivity.
    + reflexivity.
    + reflexivity.
    + discriminate.
    + unfold rectangular. evaluate.
    + apply toy_rectangular_right.
    + evaluate.
    + evaluate.
    + evaluate.
    + evaluate.
    + by exists w', left'.
Defined.

Lemma append_text_length_twice_toy :
  ∃ w', DataPack.append_text_length 0%nat true toy_world = (Ok None, w')
        ∧ DataPack.append_text_length 0%nat true w' = (Ok None, w').
Proof.
  apply (append_text_length_twice toy_world 0%nat
           (mkDataPack 0%nat 1%nat 2%nat) toy_left toy_right).
  - reflexivity.
  - reflexivity.
  - reflexivity.
  - discriminate.
  - apply toy_rectangular_left.
  - apply toy_rectangular_right.
  - evaluate.
  - evaluate.
  - evaluate.
  - evaluate.
Defined.

Lemma apply_on_text_nameless_toy :
  DataPack.apply_on_text 0%nat nameless "left" None 1 true toy_world
  = (Raise AttributeError, toy_world).
Proof.
  apply apply_on_text_nameless.
  - right. by left.
  - by exists None.
  - discriminate.
  - reflexivity.
Defined.

Lemma apply_on_text_both_string_toy :
  DataPack.apply_on_text 0%nat len "both" (Some (RStr "abc")) 0 true
    toy_world
  = (Raise ValueError, toy_world)
  ∧ DataPack.apply_on_text 0%nat len "both" (Some (RStr "é")) 0 true
      toy_world
    = (Raise ValueError, toy_world)
  ∧ DataPack.apply_on_text 0%nat len "both" (Some (RStr "éa")) 0 true
      toy_world
    = DataPack.apply_on_text 0%nat len "both" (Some (RPair "é" "a")) 0 true
        toy_world.
Proof.
  split; [|split].
  - apply (apply_on_text_both_string toy_world 0%nat len 0 "abc");
      discriminate.
  - apply (apply_on_text_both_string toy_world 0%nat len 0 "é");
      discriminate.
  - apply (apply_on_text_both_string toy_world 0%nat len 0 "éa").
    reflexivity.
Defined.

Lemma copy_independent_toy :
  ∃ p w1,
    DataPack.copy 0%nat toy_world = (Ok p, w1)
    ∧ holds w1 p toy_relation toy_left toy_right
    ∧ ∀ r w',
        DataPack.apply_on_text 0%nat len "both" None 0 true w1 = (r, w') →
        holds w' p toy_relation toy_left toy_right.
Proof.
  destruct (copy_independent toy_world 0%nat
              toy_relation toy_left toy_right toy_holds)
    as (p & w1 & Hrun & Hnew & _ & Hkeep).
  exists p, w1. split; [exact Hrun|].
  split; [by eapply new_pack_in_holds|].
  intros r w'. apply Hkeep.
Defined.

Lemma init_shares_frames_toy :
  ∃ w',
    (first ← DataPack.__init__ 0%nat 1%nat 2%nat;
     second ← DataPack.__init__ 0%nat 1%nat 2%nat;
     DataPack.apply_on_text first len "left" (Some (RStr "length_left")) 0
       true;;
     shared ← DataPack.left second;
     get_frame shared) toy_world
    = (Ok (mkFrame (Some "id_left") ["text_left"; "length_left"]
             [(VStr "qid1", [VStr "query 1"; VInt 7]);
              (VStr "qid2", [VStr "query 2"; VInt 7])]), w').
Proof.
  apply (init_shares_frames toy_world 0%nat 1%nat 2%nat toy_left len
           (Some "length_left") 0 [VInt 7; VInt 7]).
  - reflexivity.
  - evaluate.
  - by left.
  - reflexivity.
Defined.

Lemma inplace_rebinds_relation_toy :
  ∃ w', DataPack.drop_label 0%nat true toy_world = (Ok None, w')
        ∧ frames toy_world ⊆ frames w'.
Proof.
  assert (DataPack.drop_label 0%nat true toy_world
          = (Ok None, (DataPack.drop_label 0%nat true toy_world).2))
    as Hrun by (vm_compute; reflexivity).
  destruct (inplace_rebinds_relation toy_world 0%nat
              toy_relation toy_left toy_right backwards _ _
              toy_holds (or_introl Hrun))
    as [Hsub _].
  eexists. split; [exact Hrun|exact Hsub].
Defined.

Lemma getitem_out_of_range_toy :
  DataPack.__getitem__ 0%nat (IInt 2) toy_world = (Raise KeyError, toy_world)
  ∧ DataPackFrameView.__getitem__ (mkView 0%nat) (IInt 2) toy_world
    = (Raise KeyError, toy_world).
Proof.
  apply (getitem_out_of_range toy_world 0%nat
           toy_relation toy_left toy_right (IInt 2) [2]).
  - apply toy_holds.
  - apply toy_relation_ok.
  - reflexivity.
  - evaluate.
Defined.

Lemma getitem_dangling_identifier_toy :
  DataPack.__getitem__ 0%nat (ISlice None None None)
    (with_frame toy_world 1%nat toy_left_short)
  = (Raise KeyError, with_frame toy_world 1%nat toy_left_short)
  ∧ DataPackFrameView.__getitem__ (mkView 0%nat) (ISlice None None None)
      (with_frame toy_world 1%nat toy_left_short)
    = (Raise KeyError, with_frame toy_world 1%nat toy_left_short).
Proof.
  destruct (getitem_dangling_identifier
              (with_frame toy_world 1%nat toy_left_short) 0%nat
              toy_relation toy_left_short toy_right
              (ISlice None None None) [0; 1])
    as [Hpack Hview].
  - exists (mkDataPack 0%nat 1%nat 2%nat). repeat split; evaluate.
  - apply toy_relation_ok.
  - reflexivity.
  - evaluate.
  - split; [apply Hpack|apply Hview]; evaluate.
Defined.



Lemma save_existing_directory_toy :
  ∃ w', DataPack.save 0%nat [] toy_world = (Ok (), w')
        ∧ node_at w' [DATA_FILENAME]
          = Some (File (Pickled toy_relation toy_left toy_right))
        ∧ node_at w' ["saved"; DATA_FILENAME] = Some (File (Bytes "old")).
Proof.
  destruct (save_existing_directory toy_world 0%nat
              toy_relation toy_left toy_right [])
    as (w' & Hrun & Hfile & Hrest & _).
  - apply toy_holds.
  - reflexivity.
  - reflexivity.
  - exists w'. split; [exact Hrun|]. split; [exact Hfile|].
    rewrite Hrest; [reflexivity|discriminate].
Defined.

Lemma save_failure_toy :
  ∃ w', DataPack.save 0%nat ["saved"; DATA_FILENAME; "x"; "y"] toy_world
        = (Raise NotADirectoryError, w')
        ∧ w' = toy_world.
Proof.
  assert (DataPack.save 0%nat ["saved"; DATA_FILENAME; "x"; "y"] toy_world
          = (Raise NotADirectoryError,
             (DataPack.save 0%nat ["saved"; DATA_FILENAME; "x"; "y"]
                toy_world).2))
    as Hrun by (vm_compute; reflexivity).
  destruct (save_failure toy_world 0%nat toy_relation toy_left toy_right
              ["saved"; DATA_FILENAME; "x"; "y"] _ _
              toy_holds toy_fs_ok Hrun)
    as [Hw _].
  eexists. split; [exact Hrun|exact Hw].
Defined.

Lemma save_twice_toy :
  ∃ w1, DataPack.save 0%nat ["fresh"] toy_world = (Ok (), w1)
        ∧ DataPack.save 0%nat ["fresh"] w1 = (Raise FileExistsError, w1).
Proof.
  assert (DataPack.save 0%nat ["fresh"] toy_world
          = (Ok (), (DataPack.save 0%nat ["fresh"] toy_world).2))
    as Hrun by (vm_compute; reflexivity).
  destruct (save_twice toy_world 0%nat toy_relation toy_left toy_right
              ["fresh"] _ 0%nat toy_holds Hrun)
    as [Hagain _].
  eexists. split; [exact Hrun|exact Hagain].
Defined.

Lemma saved_snapshot_toy :
  ∃ w1 w2 p w3,
    DataPack.save 0%nat ["fresh"] toy_world = (Ok (), w1)
    ∧ DataPack.append_text_length 0%nat true w1 = (Ok None, w2)
    ∧ load_data_pack ["fresh"] w2 = (Ok p, w3)
    ∧ holds w3 p toy_relation toy_left toy_right.
Proof.
  assert (DataPack.save 0%nat ["fresh"] toy_world
          = (Ok (), (DataPack.save 0%nat ["fresh"] toy_world).2))
    as Hsave by (vm_compute; reflexivity).
  assert (DataPack.append_text_length 0%nat true
            (DataPack.save 0%nat ["fresh"] toy_world).2
          = (Ok None,
             (DataPack.append_text_length 0%nat true
                (DataPack.save 0%nat ["fresh"] toy_world).2).2))
    as Happly by (vm_compute; reflexivity).
  destruct (saved_snapshot toy_world 0%nat toy_relation toy_left toy_right
              ["fresh"] _ len "both"
              (Some (RPair "length_left" "length_right")) 1 _ _
              toy_holds Hsave Happly)
    as (p & w3 & Hload & Hnew & _).
  eexists _, _, p, w3. split; [exact Hsave|]. split; [exact Happly|].
  split; [exact Hload|]. by eapply new_pack_in_holds.
Defined.



